(** * Camera client for a Zebra network camera: model and verified properties

    Shallow embedding of [src/zebra/__main__.py] (class [CameraControl] and
    [main]) and of the stand-alone script [src/trigger.py].

    The Python code is effectful: it opens TCP connections, reads a clock,
    writes files, logs and prints.  Every effect is made explicit in a
    [World] that is threaded through a small state-and-exception monad [Py].
    What the environment does (whether a peer accepts, what it sends, whether
    the disk is writable) is an input held by the world; what the program does
    is recorded, in order, in the world's [trace].

    Outside the model: exceptions that arrive from outside the program
    ([KeyboardInterrupt] and the like), and a peer that sends without end. *)

From Stdlib Require Import Strings.Byte.
From Stdlib Require Import List String Ascii ZArith NArith Lia Bool DecimalString.
Import ListNotations.

Open Scope string_scope.
Open Scope list_scope.

(** ** Python values *)

(** A Python [bytes] object. *)
Definition bytes := list byte.

(** A bytes literal [b"..."]. *)
Definition b (s : string) : bytes := list_byte_of_string s.

Definition byte_of_N (n : N) : byte :=
  match Byte.of_N n with
  | Some x => x
  | None => x00
  end.

(** A Python [str] is modelled by a Rocq [string]: a sequence of code points
    below U+0100.  [str.encode("utf-8")] on such a string: one byte for an
    ASCII code point, two bytes otherwise. *)
Definition utf8_of_char (c : ascii) : bytes :=
  let n := N_of_ascii c in
  if (n <? 128)%N then [byte_of_N n]
  else [byte_of_N (192 + n / 64)%N; byte_of_N (128 + n mod 64)%N].

Fixpoint encode_utf8 (s : string) : bytes :=
  match s with
  | EmptyString => []
  | String c s' => utf8_of_char c ++ encode_utf8 s'
  end.

(** The two characters written [\r\n] in Python source. *)
Definition CRLF : string := String "013"%char (String "010"%char "").

(** [str(n)] for an [int]. *)
Definition str_of_int (n : Z) : string := NilZero.string_of_int (Z.to_int n).

(** [str.isspace] on one code point below U+0100. *)
Definition isspace (c : ascii) : bool :=
  let n := N_of_ascii c in
  ((9 <=? n) && (n <=? 13) || (28 <=? n) && (n <=? 32)
   || (n =? 133) || (n =? 160))%N.

Fixpoint lstrip (s : string) : string :=
  match s with
  | EmptyString => EmptyString
  | String c s' => if isspace c then lstrip s' else s
  end.

Fixpoint rstrip (s : string) : string :=
  match s with
  | EmptyString => EmptyString
  | String c s' =>
      match rstrip s' with
      | EmptyString => if isspace c then EmptyString else String c EmptyString
      | t => String c t
      end
  end.

(** [str.strip()] with no argument. *)
Definition strip (s : string) : string := rstrip (lstrip s).

(** Substring test on [str] ([sub in s]). *)
Fixpoint str_contains (sub s : string) : bool :=
  String.prefix sub s
  || match s with
     | EmptyString => false
     | String _ s' => str_contains sub s'
     end.

(** ** Byte-sequence operations used by the image extraction *)

Fixpoint is_prefix (p s : bytes) : bool :=
  match p, s with
  | [], _ => true
  | _ :: _, [] => false
  | x :: p', y :: s' => Byte.eqb x y && is_prefix p' s'
  end.

(** [sub in s] on bytes. *)
Fixpoint bytes_contains (sub s : bytes) : bool :=
  is_prefix sub s
  || match s with
     | [] => false
     | _ :: s' => bytes_contains sub s'
     end.

(** [s.find(sub)]: index of the first occurrence, [None] for Python's -1. *)
Fixpoint bytes_find (sub s : bytes) : option nat :=
  if is_prefix sub s then Some 0
  else match s with
       | [] => None
       | _ :: s' => option_map S (bytes_find sub s')
       end.

(** The scan of [bytes.split(sep)] for a non-empty [sep], left to right over
    non-overlapping occurrences.  [skip] counts the bytes of a matched
    separator still to be passed over; [cur] is the current piece, reversed. *)
Fixpoint split_scan (sep s : bytes) (skip : nat) (cur : bytes) : list bytes :=
  match s with
  | [] => [rev cur]
  | x :: s' =>
      match skip with
      | S k => split_scan sep s' k cur
      | O =>
          if is_prefix sep s
          then rev cur :: split_scan sep s' (List.length sep - 1) []
          else split_scan sep s' 0 (x :: cur)
      end
  end.

(** ** Exceptions *)

(** The exception classes that the modelled operations can raise.
    [socket.timeout] is [TimeoutError], [IOError] is [OSError]. *)
Inductive ExnClass :=
| Exception
| OSError
| TimeoutError
| ConnectionError
| ConnectionRefusedError
| ConnectionResetError
| BrokenPipeError
| FileNotFoundError
| PermissionError
| ValueError
| binascii_Error
| LookupError
| IndexError.

Definition ExnClass_eqb (c d : ExnClass) : bool :=
  match c, d with
  | Exception, Exception | OSError, OSError | TimeoutError, TimeoutError
  | ConnectionError, ConnectionError
  | ConnectionRefusedError, ConnectionRefusedError
  | ConnectionResetError, ConnectionResetError
  | BrokenPipeError, BrokenPipeError
  | FileNotFoundError, FileNotFoundError
  | PermissionError, PermissionError
  | ValueError, ValueError | binascii_Error, binascii_Error
  | LookupError, LookupError | IndexError, IndexError => true
  | _, _ => false
  end.

(** The direct base class. *)
Definition base_class (c : ExnClass) : option ExnClass :=
  match c with
  | Exception => None
  | OSError | ValueError | LookupError => Some Exception
  | TimeoutError | ConnectionError | FileNotFoundError | PermissionError =>
      Some OSError
  | ConnectionRefusedError | ConnectionResetError | BrokenPipeError =>
      Some ConnectionError
  | binascii_Error => Some ValueError
  | IndexError => Some LookupError
  end.

Fixpoint ancestors (depth : nat) (c : ExnClass) : list ExnClass :=
  c :: match depth, base_class c with
       | S d, Some p => ancestors d p
       | _, _ => []
       end.

(** [issubclass(c, d)]; the hierarchy is three levels deep below [Exception]. *)
Definition issubclass (c d : ExnClass) : bool :=
  existsb (ExnClass_eqb d) (ancestors 3 c).

(** An exception object: its class and [str(e)]. *)
Record exn := mk_exn { exn_class : ExnClass; exn_str : string }.

(** Does an [except (c1, c2, ...)] clause match? *)
Definition matches (classes : list ExnClass) (e : exn) : bool :=
  existsb (issubclass (exn_class e)) classes.

Inductive outcome (A : Type) :=
| Return (a : A)
| Raise (e : exn).
Arguments Return {A} a.
Arguments Raise {A} e.

(** ** The world *)

(** The client object: the three attributes set by [__init__]. *)
Record CameraControl := mkCameraControl {
  host : string;
  control_port : Z;
  results_port : Z
}.

Inductive Level := INFO | WARNING | ERROR.

(** What the program does, in the order it does it. *)
Inductive Event :=
| EvLog (lvl : Level) (msg : string)
| EvConnect (h : string) (port : Z)
| EvSendAll (data : bytes)
| EvRecv (bufsize : N)
| EvClose
| EvOpen (path : string)
| EvWrite (path : string) (data : bytes)
| EvPrint (line : string).

(** What one [sock.recv(4096)] call gives: a chunk of at most the requested
    size (the empty chunk is the peer's close) or an error. *)
Inductive RecvStep :=
| Chunk (data : bytes)
| RecvFails (e : exn).

(** What happens to one [socket.create_connection] call: it raises, or the
    peer accepts; then [send_fault] says whether [sendall] raises and [rcv]
    lists what the successive [recv] calls give.  A peer that stays silent
    after its script makes [recv] time out. *)
Inductive ConnScript :=
| Unreachable (e : exn)
| Accepted (send_fault : option exn) (rcv : list RecvStep).

Inductive FileFault :=
| OpenFails (e : exn)
| WriteFails (e : exn).

Record World := mkWorld {
  self : CameraControl;                 (* the attributes of the client object *)
  net : list ConnScript;                (* the peers' behaviour, one per connect *)
  disk : string -> option FileFault;    (* which paths cannot be opened/written *)
  clock : string;     (* datetime.now().strftime("%Y%m%d_%H%M%S") *)
  files : list (string * bytes);        (* file contents, latest write first *)
  trace : list Event
}.

Definition set_self (c : CameraControl) (w : World) : World :=
  mkWorld c (net w) (disk w) (clock w) (files w) (trace w).
Definition set_net (n : list ConnScript) (w : World) : World :=
  mkWorld (self w) n (disk w) (clock w) (files w) (trace w).
Definition set_files (f : list (string * bytes)) (w : World) : World :=
  mkWorld (self w) (net w) (disk w) (clock w) f (trace w).
Definition add_event (e : Event) (w : World) : World :=
  mkWorld (self w) (net w) (disk w) (clock w) (files w) (trace w ++ [e]).

Fixpoint read_file (path : string) (fs : list (string * bytes)) : option bytes :=
  match fs with
  | [] => None
  | (p, d) :: fs' => if String.eqb p path then Some d else read_file path fs'
  end.

(** ** The monad of Python computations *)

Definition Py (A : Type) : Type := World -> outcome A * World.

Definition ret {A} (a : A) : Py A := fun w => (Return a, w).
Definition raise {A} (e : exn) : Py A := fun w => (Raise e, w).
Definition bind {A B} (c : Py A) (k : A -> Py B) : Py B :=
  fun w => match c w with
           | (Return a, w') => k a w'
           | (Raise e, w') => (Raise e, w')
           end.

Notation "x <- c ;; k" := (bind c (fun x => k))
  (at level 61, c at next level, right associativity).
Notation "c ;; k" := (bind c (fun _ => k))
  (at level 61, right associativity).

(** [try: body  except classes1 as e: h1 e  except classes2 as e: h2 e ...]:
    the first clause that matches handles the exception; an exception raised
    by a handler is not caught by the other clauses. *)
Fixpoint select_handler {A} (hs : list (list ExnClass * (exn -> Py A)))
    (e : exn) : Py A :=
  match hs with
  | [] => raise e
  | (classes, h) :: hs' =>
      if matches classes e then h e else select_handler hs' e
  end.

Definition try_except {A} (body : Py A)
    (hs : list (list ExnClass * (exn -> Py A))) : Py A :=
  fun w => match body w with
           | (Return a, w') => (Return a, w')
           | (Raise e, w') => select_handler hs e w'
           end.

(** The exit of a [with] block: [cleanup] runs on every exit path and the
    body's outcome is kept. *)
Definition finally {A} (body : Py A) (cleanup : World -> World) : Py A :=
  fun w => let (r, w') := body w in (r, cleanup w').

Definition emit (e : Event) : Py unit := fun w => (Return tt, add_event e w).
Definition get {A} (f : World -> A) : Py A := fun w => (Return (f w), w).
Definition modify (f : World -> World) : Py unit := fun w => (Return tt, f w).

(** ** Library operations *)

(** *** [base64.b64decode]

    With its default arguments [base64.b64decode(s)] is
    [binascii.a2b_base64(s)] in non-strict mode (CPython 3.11 and later,
    Modules/binascii.c):
    bytes outside the alphabet are skipped, a pad that completes a quad ends
    the input, other pads are skipped, and an incomplete last quad is an
    error. *)

Definition b64_digit (c : byte) : option N :=
  let n := Byte.to_N c in
  if ((65 <=? n) && (n <=? 90))%N then Some (n - 65)%N
  else if ((97 <=? n) && (n <=? 122))%N then Some (n - 71)%N
  else if ((48 <=? n) && (n <=? 57))%N then Some (n + 4)%N
  else if (n =? 43)%N then Some 62%N
  else if (n =? 47)%N then Some 63%N
  else None.

(** One output byte, an [unsigned char]. *)
Definition u8 (n : N) : byte := byte_of_N (n mod 256).

Fixpoint a2b_scan (data : bytes) (quad_pos : nat) (leftchar : N) (pads : nat)
    (out : bytes) : outcome bytes :=
  match data with
  | [] =>
      match quad_pos with
      | 0 => Return (rev out)
      | 1 =>
          Raise (mk_exn binascii_Error
            ("Invalid base64-encoded string: number of data characters ("
             ++ str_of_int (Z.of_nat (List.length out / 3 * 4 + 1))
             ++ ") cannot be 1 more than a multiple of 4")%string)
      | _ => Raise (mk_exn binascii_Error "Incorrect padding")
      end
  | c :: data' =>
      if Byte.eqb c "="%byte then
        if ((2 <=? quad_pos) && (4 <=? quad_pos + S pads))%nat
        then Return (rev out)
        else a2b_scan data' quad_pos leftchar
               (if (2 <=? quad_pos)%nat then S pads else pads) out
      else
        match b64_digit c with
        | None => a2b_scan data' quad_pos leftchar pads out
        | Some v =>
            match quad_pos with
            | 0 => a2b_scan data' 1 v 0 out
            | 1 => a2b_scan data' 2 (N.land v 15) 0
                     (u8 (N.lor (N.shiftl leftchar 2) (N.shiftr v 4)) :: out)
            | 2 => a2b_scan data' 3 (N.land v 3) 0
                     (u8 (N.lor (N.shiftl leftchar 4) (N.shiftr v 2)) :: out)
            | _ => a2b_scan data' 0 0 0
                     (u8 (N.lor (N.shiftl leftchar 6) v) :: out)
            end
        end
  end.

Definition b64decode (s : bytes) : outcome bytes := a2b_scan s 0 0 0 [].

(** An [outcome] computed without effects, as a computation. *)
Definition lift {A} (r : outcome A) : Py A := fun w => (r, w).

(** *** [bytes.split] and list indexing *)

Definition bytes_split (s sep : bytes) : outcome (list bytes) :=
  match sep with
  | [] => Raise (mk_exn ValueError "empty separator")
  | _ :: _ => Return (split_scan sep s 0 [])
  end.

(** [l[i]] for a non-negative index. *)
Definition getitem {A} (l : list A) (i : nat) : outcome A :=
  match nth_error l i with
  | Some x => Return x
  | None => Raise (mk_exn IndexError "list index out of range")
  end.

(** *** Sockets *)

(** An open socket: what its peer will do. *)
Record Socket := mkSocket {
  sock_send_fault : option exn;
  sock_rcv : list RecvStep
}.

Definition timed_out : exn := mk_exn TimeoutError "timed out".

(** [socket.create_connection((h, port), timeout=5)]: takes the next peer
    script; with no peer left the attempt times out. *)
Definition create_connection (h : string) (port : Z) : Py Socket :=
  emit (EvConnect h port) ;;
  n <- get net ;;
  match n with
  | [] => raise timed_out
  | Unreachable e :: n' => modify (set_net n') ;; raise e
  | Accepted sf rcv :: n' => modify (set_net n') ;; ret (mkSocket sf rcv)
  end.

(** [sock.sendall(data)] *)
Definition sendall (sock : Socket) (data : bytes) : Py unit :=
  emit (EvSendAll data) ;;
  match sock_send_fault sock with
  | None => ret tt
  | Some e => raise e
  end.

(** [with socket.create_connection((h, port), timeout=5) as sock: body] *)
Definition with_connection {A} (h : string) (port : Z)
    (body : Socket -> Py A) : Py A :=
  sock <- create_connection h port ;;
  finally (body sock) (add_event EvClose).

(** *** Files, clock, logging, printing *)

(** [with open(path, "wb") as f: f.write(data)]: opening truncates or creates
    the file, writing fills it.  [EvWrite] records a write that went through:
    a write that fails, at the call or when the file is flushed and closed,
    raises and leaves the file empty. *)
Definition write_binary_file (path : string) (data : bytes) : Py unit :=
  emit (EvOpen path) ;;
  fault <- get (fun w => disk w path) ;;
  match fault with
  | Some (OpenFails e) => raise e
  | Some (WriteFails e) =>
      modify (fun w => set_files ((path, []) :: files w) w) ;; raise e
  | None =>
      modify (fun w => set_files ((path, data) :: files w) w) ;;
      emit (EvWrite path data)
  end.

(** [datetime.now().strftime("%Y%m%d_%H%M%S")] *)
Definition now_strftime : Py string := get clock.

(** [self.logger.info], [.warning], [.error]; the logger level is [INFO], so
    all three are emitted. *)
Definition logger_info (msg : string) : Py unit := emit (EvLog INFO msg).
Definition logger_warning (msg : string) : Py unit := emit (EvLog WARNING msg).
Definition logger_error (msg : string) : Py unit := emit (EvLog ERROR msg).

Definition print (line : string) : Py unit := emit (EvPrint line).

(** ** class CameraControl (src/zebra/__main__.py) *)

Definition MARKER : bytes := b "/9j/".

(** [CameraControl.__init__]: stores the three attributes.  The logging set-up
    ([logging.basicConfig], [self.logger]) has no effect of its own; the
    logger's output is the [EvLog] events. *)
Definition __init__ (h : string) (cport rport : Z) : Py unit :=
  modify (set_self (mkCameraControl h cport rport)).

Definition _send_to_socket (h : string) (port : Z) (data : bytes) : Py unit :=
  try_except
    (with_connection h port (fun sock => sendall sock data))
    [([TimeoutError; ConnectionRefusedError],
      fun e => raise (mk_exn ConnectionError
        ("Failed to send data to " ++ h ++ ":" ++ str_of_int port
         ++ ". Error: " ++ exn_str e)%string))].

(** The [while True] loop of [_receive_from_socket]; it runs along the peer's
    script, so it always ends: in a close, an error, or a timeout. *)
Fixpoint recv_loop (rcv : list RecvStep) (response : bytes) : Py bytes :=
  emit (EvRecv 4096) ;;
  match rcv with
  | [] => raise timed_out
  | RecvFails e :: _ => raise e
  | Chunk chunk :: rcv' =>
      match chunk with
      | [] => ret response
      | _ :: _ => recv_loop rcv' (response ++ chunk)
      end
  end.

Definition _receive_from_socket (h : string) (port : Z) : Py bytes :=
  try_except
    (with_connection h port (fun sock => recv_loop (sock_rcv sock) []))
    [([TimeoutError; ConnectionRefusedError],
      fun e => raise (mk_exn ConnectionError
        ("Failed to receive data from " ++ h ++ ":" ++ str_of_int port
         ++ ". Error: " ++ exn_str e)%string))].

Definition send_command (command : string) : Py bytes :=
  logger_info ("Sending command: " ++ strip command)%string ;;
  me <- get self ;;
  _send_to_socket (host me) (control_port me) (encode_utf8 command) ;;
  me <- get self ;;
  _receive_from_socket (host me) (results_port me).

Definition save_image_data (image_data : bytes) (image_path : string)
    : Py unit :=
  try_except
    (write_binary_file image_path image_data)
    [([OSError],
      fun e => raise (mk_exn OSError
        ("Failed to save image to " ++ image_path ++ ". Error: "
         ++ exn_str e)%string))].

Definition trigger : Py unit :=
  logger_info "Triggering camera" ;;
  send_command ("TRIGGER" ++ CRLF)%string ;;
  ret tt.

Definition _process_image_data (response : bytes) : Py unit :=
  try_except
    (parts <- lift (bytes_split response MARKER) ;;
     base64_data <- lift (getitem parts 1) ;;
     image_data <- lift (b64decode (MARKER ++ base64_data)) ;;
     timestamp <- now_strftime ;;
     let image_filename := ("output_image_" ++ timestamp ++ ".jpg")%string in
     let image_path := ("./images/" ++ image_filename)%string in
     save_image_data image_data image_path ;;
     logger_info ("Image saved successfully: " ++ image_filename)%string)
    [([Exception],
      fun e => logger_error ("Error processing image data: " ++ exn_str e)%string)].

Definition acquire_image : Py unit :=
  logger_info "Acquiring image from camera" ;;
  trigger ;;
  response <- send_command ("getresultimage" ++ CRLF)%string ;;
  if bytes_contains MARKER response
  then _process_image_data response
  else logger_warning "No image data found in the response".

(** ** main (src/zebra/__main__.py) *)

(** The namespace that [parser.parse_args()] returns.  [main] is modelled from
    that namespace on: the parsing itself (line 187) stands before the [try]
    and ends the program on an unknown flag or on [-h]. *)
Record Args := mkArgs {
  arg_host : string;
  arg_control_port : Z;
  arg_results_port : Z;
  arg_trigger : bool;
  arg_acquire : bool
}.

Definition main (args : Args) : Py unit :=
  try_except
    (__init__ (arg_host args) (arg_control_port args) (arg_results_port args) ;;
     if arg_trigger args then trigger
     else if arg_acquire args then acquire_image
     else print "Please specify either --trigger or --acquire")
    [([ConnectionError],
      fun e => print ("Connection error: " ++ exn_str e)%string);
     ([Exception],
      fun e => print ("An unexpected error occurred: " ++ exn_str e)%string)].

(** ** src/trigger.py, lines 4 to 16: the control-channel block

    The script's second block (one [recv] on the results port with no
    timeout) is not modelled. *)

Definition HOST : string := "192.168.1.200".
Definition CONTROL_PORT : Z := 107.
Definition RESULTS_PORT : Z := 25250.

(** [s.connect((h, port))] on a fresh socket. *)
Definition connect (h : string) (port : Z) : Py Socket :=
  create_connection h port.

Definition trigger_py_control_block : Py unit :=
  finally
    (s <- connect HOST CONTROL_PORT ;;
     let message := ("TRIGGER" ++ CRLF)%string in
     sendall s (encode_utf8 message) ;;
     print ("Message sent: " ++ message)%string)
    (add_event EvClose).

(** ** Running the model on concrete worlds *)

Definition camera0 : CameraControl := mkCameraControl HOST CONTROL_PORT RESULTS_PORT.

(** A world with a given network script, a healthy disk, no file and an empty
    trace. *)
Definition world0 (n : list ConnScript) : World :=
  mkWorld camera0 n (fun _ => None) "20240102_030405" [] [].

(** A peer that accepts and closes at once. *)
Definition quiet : ConnScript := Accepted None [Chunk []].

(** A peer that accepts, sends [chunks] and closes. *)
Definition serving (chunks : list bytes) : ConnScript :=
  Accepted None (map Chunk chunks ++ [Chunk []]).

(** * Vocabulary of the statements

    Observers of traces, the concrete worlds of the examples, and the names
    used to state the properties below. *)

Definition add_events (evs : list Event) (w : World) : World :=
  mkWorld (self w) (net w) (disk w) (clock w) (files w) (trace w ++ evs).

(** The connection attempts of a trace, in order. *)
Fixpoint connects (t : list Event) : list (string * Z) :=
  match t with
  | [] => []
  | EvConnect h p :: t' => (h, p) :: connects t'
  | _ :: t' => connects t'
  end.

(** The payloads handed to [sendall], in order. *)
Fixpoint sent (t : list Event) : list bytes :=
  match t with
  | [] => []
  | EvSendAll d :: t' => d :: sent t'
  | _ :: t' => sent t'
  end.

Definition is_file_event (e : Event) : bool :=
  match e with
  | EvOpen _ | EvWrite _ _ => true
  | _ => false
  end.

Definition is_sendall (e : Event) : bool :=
  match e with
  | EvSendAll _ => true
  | _ => false
  end.

(** [R] relates the world before a computation to the world after it. *)
Definition respects (R : World -> World -> Prop) {A} (c : Py A) : Prop :=
  forall w, R w (snd (c w)).

(** The events of a receive, and of a whole exchange, are allowed by [ok]. *)
Definition ok_receive (ok : Event -> bool) : Prop :=
  (forall h p, ok (EvConnect h p) = true)
  /\ ok (EvRecv 4096) = true /\ ok EvClose = true.

Definition ok_exchange (ok : Event -> bool) (data : bytes) : Prop :=
  ok (EvSendAll data) = true /\ ok_receive ok.

Definition same_self (w w' : World) : Prop := self w' = self w.

(** The public operations of the client, and a client's life after its
    construction: any sequence of them, whatever their outcomes. *)
Inductive Operation :=
| OpSend (command : string)
| OpTrigger
| OpAcquire.

Definition perform (op : Operation) (w : World) : World :=
  match op with
  | OpSend command => snd (send_command command w)
  | OpTrigger => snd (trigger w)
  | OpAcquire => snd (acquire_image w)
  end.

Definition perform_all (ops : list Operation) (w : World) : World :=
  fold_left (fun w op => perform op w) ops w.

Definition three_chunks : list bytes :=
  [b "HEAD"; b "ER/9"; b "j/4EpQRUdEQVRB"].

Definition world_three_chunks : World :=
  world0 [quiet;
          Accepted None (map Chunk three_chunks ++ Chunk [] :: [Chunk (b "late")])].

Definition emits (P : Event -> bool) (w w' : World) : Prop :=
  exists d, trace w' = trace w ++ d /\ forallb P d = true.

Definition same_files (w w' : World) : Prop := files w' = files w.

Definition not_file_event (e : Event) : bool := negb (is_file_event e).

Definition ACQUIRING : Event := EvLog INFO "Acquiring image from camera".
Definition NO_IMAGE : Event :=
  EvLog WARNING "No image data found in the response".

(** The worlds that acquire_image goes through on its way to the branch. *)
Definition after_trigger (w : World) : World :=
  snd (trigger (add_event ACQUIRING w)).
Definition after_query (w : World) : World :=
  snd (send_command ("getresultimage" ++ CRLF) (after_trigger w)).

Definition world_no_image : World :=
  world0 [quiet; quiet; quiet; serving [b "no picture yet"]].

Definition world_closed_at_once : World := world0 [quiet; quiet; quiet; quiet].

(** The file name and path that [_process_image_data] builds from the
    timestamp. *)
Definition image_filename (timestamp : string) : string :=
  "output_image_" ++ timestamp ++ ".jpg".
Definition image_path (timestamp : string) : string :=
  "./images/" ++ image_filename timestamp.

Definition PROCESSING_ERROR (e : exn) : Event :=
  EvLog ERROR ("Error processing image data: " ++ exn_str e).

Definition world_truncated_image : World :=
  world0 [quiet; quiet; quiet; serving [b "garbage/9j/AAAAA"]].

Definition fault_exn (f : FileFault) : exn :=
  match f with
  | OpenFails e | WriteFails e => e
  end.

(** What a failed save leaves on disk: nothing new when the open fails, an
    empty file when the write fails. *)
Definition after_fault (path : string) (f : FileFault) (w : World) : World :=
  match f with
  | OpenFails _ => w
  | WriteFails _ => set_files ((path, []) :: files w) w
  end.

(** The exception that [save_image_data] raises for the cause [e]. *)
Definition SAVE_ERROR (path : string) (e : exn) : exn :=
  mk_exn OSError ("Failed to save image to " ++ path ++ ". Error: " ++ exn_str e).

(** A camera that answers with an image, and a working directory without the
    [images] directory: every open fails. *)
Definition no_such_directory : exn :=
  mk_exn FileNotFoundError "[Errno 2] No such file or directory".

Definition world_missing_directory : World :=
  mkWorld camera0 [quiet; quiet; quiet; serving [b "garbage/9j/AAAA=="]]
    (fun _ => Some (OpenFails no_such_directory)) "20240102_030405" [] [].

Definition six_bytes : bytes := [xff; xd8; xff; x00; x00; x00].

(** The sub-sequence from the first occurrence of the marker to the end of the
    response: the extraction as the specification words it. *)
Definition from_first_marker (response : bytes) : option bytes :=
  option_map (fun i => skipn i response) (bytes_find MARKER response).

(** The world after a successful save of [image_data]. *)
Definition saved (image_data : bytes) (w : World) : World :=
  add_events
    [EvOpen (image_path (clock w));
     EvWrite (image_path (clock w)) image_data;
     EvLog INFO ("Image saved successfully: " ++ image_filename (clock w))]
    (set_files ((image_path (clock w), image_data) :: files w) w).

Definition world_with_image : World :=
  world0 [quiet; quiet; quiet; serving [b "...garbage.../9j/AAAA=="]].

Definition world_two_markers : World :=
  world0 [quiet; quiet; quiet; serving [b "x/9j/AAAA/9j/BBBB"]].

Inductive Channel := Control | Results.

(** The classes named by the [except] clauses of the two socket helpers. *)
Definition WRAPPED : list ExnClass := [TimeoutError; ConnectionRefusedError].

(** The error that ends the receive loop before the peer's close, if any. *)
Fixpoint recv_fault (rcv : list RecvStep) : option exn :=
  match rcv with
  | [] => Some timed_out
  | RecvFails e :: _ => Some e
  | Chunk [] :: _ => None
  | Chunk (_ :: _) :: rcv' => recv_fault rcv'
  end.

(** The error of the connect or send step on the control channel, if any. *)
Definition control_fault (n : list ConnScript) : option exn :=
  match n with
  | [] => Some timed_out
  | Unreachable e :: _ => Some e
  | Accepted (Some e) _ :: _ => Some e
  | Accepted None _ :: _ => None
  end.

(** The error of the connect or receive step on the results channel, if any. *)
Definition results_fault (n : list ConnScript) : option exn :=
  match n with
  | [] => Some timed_out
  | Unreachable e :: _ => Some e
  | Accepted _ rcv :: _ => recv_fault rcv
  end.

(** The first step of a round trip that fails, with its channel. *)
Definition first_fault (n : list ConnScript) : option (Channel * exn) :=
  match control_fault n with
  | Some e => Some (Control, e)
  | None => option_map (pair Results) (results_fault (tl n))
  end.

Definition channel_port (ch : Channel) (cam : CameraControl) : Z :=
  match ch with
  | Control => control_port cam
  | Results => results_port cam
  end.

Definition failure_message (ch : Channel) (cam : CameraControl) (cause : exn)
    : string :=
  match ch with
  | Control => "Failed to send data to "
  | Results => "Failed to receive data from "
  end ++ host cam ++ ":" ++ str_of_int (channel_port ch cam)
  ++ ". Error: " ++ exn_str cause.

(** What the caller of send_command sees for the cause [e]. *)
Definition surfaced (ch : Channel) (cam : CameraControl) (e : exn) : exn :=
  if matches WRAPPED e
  then mk_exn ConnectionError (failure_message ch cam e)
  else e.

(** The connection attempts of a round trip that fails on [ch]. *)
Definition attempts (ch : Channel) (cam : CameraControl)
    : list (string * Z) :=
  match ch with
  | Control => [(host cam, control_port cam)]
  | Results => [(host cam, control_port cam); (host cam, results_port cam)]
  end.

(** The peer scripts that a failed round trip has used up. *)
Definition consumed (ch : Channel) (n : list ConnScript) : list ConnScript :=
  match ch with
  | Control => tl n
  | Results => tl (tl n)
  end.

Definition connection_refused : exn :=
  mk_exn ConnectionRefusedError "[Errno 111] Connection refused".
Definition connection_reset : exn :=
  mk_exn ConnectionResetError "[Errno 104] Connection reset by peer".

(** The control peer takes the command; the results port refuses. *)
Definition world_results_refused : World :=
  world0 [quiet; Unreachable connection_refused].

Definition world_results_reset : World :=
  world0 [quiet; Accepted None [RecvFails connection_reset]].

(** The bytes of the literal [TRIGGER\r\n]. *)
Definition TRIGGER_BYTES : bytes := b "TRIGGER" ++ [x0d; x0a].

Definition TRIGGERING : Event := EvLog INFO "Triggering camera".

Fixpoint bytes_eqb (x y : bytes) : bool :=
  match x, y with
  | [], [] => true
  | c :: x', d :: y' => Byte.eqb c d && bytes_eqb x' y'
  | _, _ => false
  end.

Definition not_sendall (e : Event) : bool := negb (is_sendall e).

Definition world_listening : World :=
  mkWorld (mkCameraControl "camera.local" 9000 9001)
    [quiet; serving [b "OK"]] (fun _ => None) "20240102_030405"
    [("./images/old.jpg", six_bytes)]
    [EvLog INFO "Sending command: getresultimage"].

(** The only payload that trigger ever hands to a socket, established
    connection or not, is the literal. *)
Definition only_trigger_literal (e : Event) : bool :=
  match e with
  | EvSendAll d => bytes_eqb d TRIGGER_BYTES
  | _ => true
  end.

Definition GETRESULTIMAGE_BYTES : bytes := b "getresultimage" ++ [x0d; x0a].

(** Events that only an acquisition produces: its opening log line, the
    [getresultimage] command, a file access. *)
Definition not_acquisition (e : Event) : bool :=
  match e with
  | EvLog _ msg => negb (String.eqb msg "Acquiring image from camera")
  | EvSendAll d => negb (bytes_eqb d GETRESULTIMAGE_BYTES)
  | EvOpen _ | EvWrite _ _ => false
  | _ => true
  end.

Definition any_event (e : Event) : bool := true.

(** * Vocabulary of the further properties *)

(** ** Counting events and connections *)

(** The number of events of a trace that satisfy [P]. *)
Definition count (P : Event -> bool) (t : list Event) : nat :=
  List.length (filter P t).

Definition is_close (e : Event) : bool :=
  match e with
  | EvClose => true
  | _ => false
  end.

Definition is_open (e : Event) : bool :=
  match e with
  | EvOpen _ => true
  | _ => false
  end.

Definition is_write (e : Event) : bool :=
  match e with
  | EvWrite _ _ => true
  | _ => false
  end.

Definition is_network_event (e : Event) : bool :=
  match e with
  | EvConnect _ _ | EvSendAll _ | EvRecv _ | EvClose => true
  | _ => false
  end.

Definition is_accepted (s : ConnScript) : bool :=
  match s with
  | Accepted _ _ => true
  | Unreachable _ => false
  end.

(** The connections established among the peer scripts [used]. *)
Definition established (used : list ConnScript) : nat :=
  List.length (filter is_accepted used).

(** Between the world before and the world after, every connection that was
    established has been closed: the peer scripts [used] are gone from the
    network, and the trace has grown by as many [close] calls as [used] holds
    accepted connections. *)
Definition sockets_closed (w w' : World) : Prop :=
  exists used d,
    net w = used ++ net w'
    /\ trace w' = trace w ++ d
    /\ count is_close d = established used.

Definition not_close (e : Event) : bool := negb (is_close e).

(** What the body of a [with] block may do with its socket: use it, neither
    close it nor open another. *)
Definition inside_connection (w w' : World) : Prop :=
  net w' = net w
  /\ exists d, trace w' = trace w ++ d /\ count is_close d = 0.

Definition INDEX_ERROR : exn := mk_exn IndexError "list index out of range".

(** ** A round trip as a function of the two peers *)

(** The bytes that the receive loop has collected when it meets the peer's
    close. *)
Fixpoint received (rcv : list RecvStep) : bytes :=
  match rcv with
  | Chunk (x :: chunk) :: rcv' => (x :: chunk) ++ received rcv'
  | _ => []
  end.

(** The [recv] calls that the loop makes: one per non-empty chunk, and the one
    that ends it (a close, an error or a timeout). *)
Fixpoint recv_calls (rcv : list RecvStep) : nat :=
  match rcv with
  | Chunk (_ :: _) :: rcv' => S (recv_calls rcv')
  | _ => 1
  end.

(** What an [except (socket.timeout, ConnectionRefusedError)] clause of the
    socket helpers makes of the cause [e]; [what] is the start of the message. *)
Definition wrap_with (what h : string) (p : Z) (e : exn) : exn :=
  if matches WRAPPED e
  then mk_exn ConnectionError
         (what ++ h ++ ":" ++ str_of_int p ++ ". Error: " ++ exn_str e)
  else e.

(** The events of [_send_to_socket] and of [_receive_from_socket], read off
    the peer script they meet. *)
Definition send_events (h : string) (p : Z) (data : bytes)
    (n : list ConnScript) : list Event :=
  EvConnect h p
  :: match n with
     | Accepted _ _ :: _ => [EvSendAll data; EvClose]
     | _ => []
     end.

Definition receive_events (h : string) (p : Z) (n : list ConnScript)
    : list Event :=
  EvConnect h p
  :: match n with
     | Accepted _ rcv :: _ => repeat (EvRecv 4096) (recv_calls rcv) ++ [EvClose]
     | _ => []
     end.

(** The receive script of the first peer, and of the results peer of a round
    trip (the second one). *)
Definition peer_script (n : list ConnScript) : list RecvStep :=
  match n with
  | Accepted _ rcv :: _ => rcv
  | _ => []
  end.

Definition results_script (n : list ConnScript) : list RecvStep :=
  peer_script (tl n).

(** The outcome of a round trip, read off the two peers. *)
Definition send_outcome (cam : CameraControl) (n : list ConnScript)
    : outcome bytes :=
  match first_fault n with
  | Some (ch, e) => Raise (surfaced ch cam e)
  | None => Return (received (results_script n))
  end.

(** The peers left for the next operation. *)
Definition net_after (n : list ConnScript) : list ConnScript :=
  match control_fault n with
  | Some _ => tl n
  | None => tl (tl n)
  end.

(** The events of a round trip, read off the two peers. *)
Definition round_trip_events (cam : CameraControl) (command : string)
    (n : list ConnScript) : list Event :=
  EvLog INFO ("Sending command: " ++ strip command)
  :: send_events (host cam) (control_port cam) (encode_utf8 command) n
  ++ match control_fault n with
     | Some _ => []
     | None => receive_events (host cam) (results_port cam) (tl n)
     end.

(** The part of [main] between the construction of the client and the
    [except] clauses: the operation that the flags select. *)
Definition selected_operation (args : Args) : Py unit :=
  if arg_trigger args then trigger
  else if arg_acquire args then acquire_image
  else print "Please specify either --trigger or --acquire".

(** The line that [main] prints for an exception that reaches it. *)
Definition failure_report (e : exn) : string :=
  (if issubclass (exn_class e) ConnectionError
   then "Connection error: "
   else "An unexpected error occurred: ") ++ exn_str e.

(** The events of one trigger call whose results peer sends [k] chunks. *)
Definition trigger_events (cam : CameraControl) (k : nat) : list Event :=
  [TRIGGERING;
   EvLog INFO "Sending command: TRIGGER";
   EvConnect (host cam) (control_port cam);
   EvSendAll TRIGGER_BYTES;
   EvClose;
   EvConnect (host cam) (results_port cam)]
  ++ repeat (EvRecv 4096) (S k) ++ [EvClose].

(** What [response.split(b"/9j/")[1]] is for a response whose first marker is
    at index [i]: the bytes behind that marker, up to the next marker. *)
Definition second_piece (response : bytes) (i : nat) : bytes :=
  let behind := skipn (i + 4) response in
  match bytes_find MARKER behind with
  | Some j => firstn j behind
  | None => behind
  end.

(** A camera whose two round trips both go through, the second one answering
    with a payload that holds the marker twice. *)
Definition args_acquire : Args := mkArgs "cam.local" 107 25250 false true.

(** The results port refuses the trigger's query. *)
Definition world_refusing_results : World :=
  world0 [quiet; Unreachable connection_refused].

(** Two trigger exchanges in a row, the peers answering differently. *)
Definition world_two_triggers : World :=
  world0 [quiet; serving [b "OK"]; quiet; serving [b "O"; b "K"]].

(** The events of the control-channel block of [src/trigger.py], read off the
    peer it meets. *)
Definition script_events (n : list ConnScript) : list Event :=
  EvConnect HOST CONTROL_PORT
  :: match n with
     | Accepted None _ :: _ =>
         [EvSendAll TRIGGER_BYTES; EvPrint ("Message sent: TRIGGER" ++ CRLF)]
     | Accepted (Some _) _ :: _ => [EvSendAll TRIGGER_BYTES]
     | _ => []
     end
  ++ [EvClose].

(** A disk that already holds a file. *)
Definition world_with_old_file : World :=
  mkWorld camera0 [] (fun _ => None) "20240102_030405"
    [("./images/a.jpg", b "old"); ("./images/b.jpg", b "other")] [].

(** Every connection attempt of [d] goes to the control port or to the results
    port of the host of [cam]. *)
Definition only_contacts (cam : CameraControl) (d : list Event) : Prop :=
  Forall (fun hp => hp = (host cam, control_port cam)
                    \/ hp = (host cam, results_port cam))
    (connects d).

(** The client that [main] builds from its arguments. *)
Definition client_of (args : Args) : CameraControl :=
  mkCameraControl (arg_host args) (arg_control_port args)
    (arg_results_port args).

(** ** Which file a run touches *)

(** The open and write calls of a trace, in order. *)
Definition file_events (t : list Event) : list Event :=
  filter is_file_event t.

(** The file accesses of [d] are nothing, or one open of [path], or one open
    of [path] followed by one write to [path]. *)
Definition touches_only (path : string) (d : list Event) : Prop :=
  file_events d = []
  \/ file_events d = [EvOpen path]
  \/ exists data, file_events d = [EvOpen path; EvWrite path data].

Definition same_clock (w w' : World) : Prop := clock w' = clock w.

(** ** What a run of main with [--trigger] may emit *)

Definition USAGE_HINT : Event :=
  EvPrint "Please specify either --trigger or --acquire".

Definition not_usage_hint (e : Event) : bool :=
  match e with
  | EvPrint line =>
      negb (String.eqb line "Please specify either --trigger or --acquire")
  | _ => true
  end.

(** Events of a trigger run: no event of an acquisition, no usage hint. *)
Definition trigger_run_event (e : Event) : bool :=
  not_acquisition e && not_usage_hint e.

(** * Properties *)

(** ** Reading a trace *)

Lemma connects_app (t u : list Event) :
  connects (t ++ u) = connects t ++ connects u.
Proof.
  induction t as [|e t IH]; simpl; [reflexivity|].
  destruct e; simpl; rewrite ?IH; reflexivity.
Qed.

Lemma sent_app (t u : list Event) : sent (t ++ u) = sent t ++ sent u.
Proof.
  induction t as [|e t IH]; simpl; [reflexivity|].
  destruct e; simpl; rewrite ?IH; reflexivity.
Qed.

Lemma connects_recvs (k : nat) (n : N) : connects (repeat (EvRecv n) k) = [].
Proof. induction k; simpl; auto. Qed.

Lemma sent_none (d : list Event) :
  forallb (fun e => negb (is_sendall e)) d = true -> sent d = [].
Proof.
  induction d as [|e d IH]; simpl; [reflexivity|].
  destruct e; simpl; intros H; try discriminate; auto.
Qed.

(** ** Exceptions: every modelled class derives from [Exception] *)

Lemma issubclass_Exception (c : ExnClass) : issubclass c Exception = true.
Proof. destruct c; reflexivity. Qed.

Lemma matches_Exception (e : exn) : matches [Exception] e = true.
Proof. unfold matches; simpl. rewrite issubclass_Exception. reflexivity. Qed.

(** ** Relations that every step of a computation respects

    [R] relates the world before to the world after.  For a reflexive and
    transitive [R] that every primitive step respects, whole computations
    respect it.  [ok] says which events may be emitted. *)

Section Respects.
Variable R : World -> World -> Prop.
Variable ok : Event -> bool.
Hypothesis R_refl : forall w, R w w.
Hypothesis R_trans : forall w1 w2 w3, R w1 w2 -> R w2 w3 -> R w1 w3.
Hypothesis R_event : forall e w, ok e = true -> R w (add_event e w).
Hypothesis R_net : forall n w, R w (set_net n w).

Lemma respects_ret {A} (a : A) : respects R (ret a).
Proof. intros w; apply R_refl. Qed.

Lemma respects_raise {A} (e : exn) : respects R (@raise A e).
Proof. intros w; apply R_refl. Qed.

Lemma respects_lift {A} (r : outcome A) : respects R (lift r).
Proof. intros w; apply R_refl. Qed.

Lemma respects_get {A} (f : World -> A) : respects R (get f).
Proof. intros w; apply R_refl. Qed.

Lemma respects_bind {A B} (c : Py A) (k : A -> Py B) :
  respects R c -> (forall a, respects R (k a)) -> respects R (bind c k).
Proof.
  intros Hc Hk w. unfold bind. specialize (Hc w).
  destruct (c w) as [[a|e] w']; simpl in *; [|exact Hc].
  apply R_trans with w'; [exact Hc | apply Hk].
Qed.

Lemma respects_select {A} (hs : list (list ExnClass * (exn -> Py A))) e :
  Forall (fun h => forall e', respects R (snd h e')) hs ->
  respects R (select_handler hs e).
Proof.
  induction 1 as [|[cl h] hs Hh _ IH]; simpl.
  - apply respects_raise.
  - destruct (matches cl e); [apply Hh | apply IH].
Qed.

Lemma respects_try_except {A} (body : Py A) hs :
  respects R body ->
  Forall (fun h => forall e', respects R (snd h e')) hs ->
  respects R (try_except body hs).
Proof.
  intros Hb Hh w. unfold try_except. specialize (Hb w).
  destruct (body w) as [[a|e] w']; simpl in *; [exact Hb|].
  apply R_trans with w'; [exact Hb | apply respects_select; exact Hh].
Qed.

Lemma respects_finally {A} (body : Py A) (cleanup : World -> World) :
  respects R body -> (forall w, R w (cleanup w)) ->
  respects R (finally body cleanup).
Proof.
  intros Hb Hc w. unfold finally. specialize (Hb w).
  destruct (body w) as [r w']; simpl in *.
  apply R_trans with w'; [exact Hb | apply Hc].
Qed.

Lemma respects_emit (e : Event) : ok e = true -> respects R (emit e).
Proof. intros H w; simpl. apply R_event, H. Qed.

Lemma respects_create_connection h p :
  ok (EvConnect h p) = true -> respects R (create_connection h p).
Proof.
  intros H. unfold create_connection.
  apply respects_bind; [apply respects_emit, H | intros _].
  apply respects_bind; [apply respects_get | intros n].
  destruct n as [|[e|sf rcv] n'].
  - apply respects_raise.
  - apply respects_bind; [intros w; apply R_net | intros _; apply respects_raise].
  - apply respects_bind; [intros w; apply R_net | intros _; apply respects_ret].
Qed.

Lemma respects_sendall sock data :
  ok (EvSendAll data) = true -> respects R (sendall sock data).
Proof.
  intros H. unfold sendall.
  apply respects_bind; [apply respects_emit, H | intros _].
  destruct (sock_send_fault sock); [apply respects_raise | apply respects_ret].
Qed.

Lemma respects_recv_loop rcv acc :
  ok (EvRecv 4096) = true -> respects R (recv_loop rcv acc).
Proof.
  intros H. revert acc. induction rcv as [|[chunk|e] rcv IH]; intros acc; simpl.
  - apply respects_bind; [apply respects_emit, H | intros _; apply respects_raise].
  - apply respects_bind; [apply respects_emit, H | intros _].
    destruct chunk; [apply respects_ret | apply IH].
  - apply respects_bind; [apply respects_emit, H | intros _; apply respects_raise].
Qed.

Lemma respects_with_connection {A} h p (body : Socket -> Py A) :
  ok (EvConnect h p) = true -> ok EvClose = true ->
  (forall sock, respects R (body sock)) ->
  respects R (with_connection h p body).
Proof.
  intros Hc Hx Hb. unfold with_connection.
  apply respects_bind; [apply respects_create_connection, Hc | intros sock].
  apply respects_finally; [apply Hb | intros w; apply R_event, Hx].
Qed.

Lemma respects__send_to_socket h p data :
  ok_exchange ok data -> respects R (_send_to_socket h p data).
Proof.
  intros (Hs & Hc & _ & Hx). unfold _send_to_socket.
  apply respects_try_except.
  - apply respects_with_connection; auto. intros; apply respects_sendall, Hs.
  - repeat constructor. intros; apply respects_raise.
Qed.

Lemma respects__receive_from_socket h p :
  ok_receive ok -> respects R (_receive_from_socket h p).
Proof.
  intros (Hc & Hr & Hx). unfold _receive_from_socket.
  apply respects_try_except.
  - apply respects_with_connection; auto. intros; apply respects_recv_loop, Hr.
  - repeat constructor. intros; apply respects_raise.
Qed.

Lemma respects_send_command command :
  ok (EvLog INFO ("Sending command: " ++ strip command)) = true ->
  ok_exchange ok (encode_utf8 command) ->
  respects R (send_command command).
Proof.
  intros Hl Hx. unfold send_command.
  apply respects_bind; [apply respects_emit, Hl | intros _].
  apply respects_bind; [apply respects_get | intros me].
  apply respects_bind; [apply respects__send_to_socket, Hx | intros _].
  apply respects_bind; [apply respects_get | intros me'].
  apply respects__receive_from_socket, Hx.
Qed.

Lemma respects_trigger :
  ok (EvLog INFO "Triggering camera") = true ->
  ok (EvLog INFO "Sending command: TRIGGER") = true ->
  ok_exchange ok (encode_utf8 ("TRIGGER" ++ CRLF)) ->
  respects R trigger.
Proof.
  intros Hl Hl' Hx. unfold trigger.
  apply respects_bind; [apply respects_emit, Hl | intros _].
  apply respects_bind; [|intros _; apply respects_ret].
  apply respects_send_command; [exact Hl' | exact Hx].
Qed.

(** The acquisition path also writes files and emits other events. *)
Hypothesis R_files : forall f w, R w (set_files f w).
Hypothesis ok_all : forall e, ok e = true.

Lemma respects_write_binary_file path data :
  respects R (write_binary_file path data).
Proof.
  unfold write_binary_file.
  apply respects_bind; [apply respects_emit, ok_all | intros _].
  apply respects_bind; [apply respects_get | intros fault].
  destruct fault as [[e|e]|].
  - apply respects_raise.
  - apply respects_bind; [intros w; apply R_files | intros _; apply respects_raise].
  - apply respects_bind; [intros w; apply R_files | intros _].
    apply respects_emit, ok_all.
Qed.

Lemma respects_save_image_data image_data image_path :
  respects R (save_image_data image_data image_path).
Proof.
  unfold save_image_data. apply respects_try_except.
  - apply respects_write_binary_file.
  - repeat constructor. intros; apply respects_raise.
Qed.

Lemma respects__process_image_data response :
  respects R (_process_image_data response).
Proof.
  unfold _process_image_data. apply respects_try_except.
  - apply respects_bind; [apply respects_lift | intros parts].
    apply respects_bind; [apply respects_lift | intros base64_data].
    apply respects_bind; [apply respects_lift | intros image_data].
    apply respects_bind; [apply respects_get | intros timestamp].
    apply respects_bind; [apply respects_save_image_data | intros _].
    apply respects_emit, ok_all.
  - repeat constructor. intros; apply respects_emit, ok_all.
Qed.

Lemma ok_all_exchange data : ok_exchange ok data.
Proof. repeat split; intros; apply ok_all. Qed.

Lemma respects_acquire_image : respects R acquire_image.
Proof.
  unfold acquire_image.
  apply respects_bind; [apply respects_emit, ok_all | intros _].
  apply respects_bind;
    [apply respects_trigger; auto using ok_all_exchange | intros _].
  apply respects_bind;
    [apply respects_send_command; auto using ok_all_exchange | intros response].
  destruct (bytes_contains MARKER response).
  - apply respects__process_image_data.
  - apply respects_emit, ok_all.
Qed.

End Respects.

(** ** The client's attributes are not touched by the operations *)

Lemma same_self_refl w : same_self w w.
Proof. reflexivity. Qed.

Lemma same_self_trans w1 w2 w3 :
  same_self w1 w2 -> same_self w2 w3 -> same_self w1 w3.
Proof. unfold same_self; congruence. Qed.

Lemma send_command_same_self command w :
  self (snd (send_command command w)) = self w.
Proof.
  apply (respects_send_command same_self (fun _ => true));
    try (repeat split; auto; fail).
  apply same_self_trans.
Qed.

Lemma trigger_same_self w : self (snd (trigger w)) = self w.
Proof.
  apply (respects_trigger same_self (fun _ => true));
    try (repeat split; auto; fail).
  apply same_self_trans.
Qed.

Lemma acquire_image_same_self w : self (snd (acquire_image w)) = self w.
Proof.
  apply (respects_acquire_image same_self (fun _ => true));
    try (repeat split; auto; fail).
  apply same_self_trans.
Qed.

Lemma perform_same_self op w : self (perform op w) = self w.
Proof.
  destruct op; simpl;
    auto using send_command_same_self, trigger_same_self, acquire_image_same_self.
Qed.

(** C8. After [CameraControl(h, cport, rport)], whatever sequence of public
    operations (send_command, trigger, acquire_image) is run and whatever the
    network and the disk do, the attributes [host], [control_port] and
    [results_port] still hold the values given to the constructor. *)
Theorem endpoint_fields_never_mutated (h : string) (cport rport : Z)
    (ops : list Operation) (w : World) :
  self (perform_all ops (snd (__init__ h cport rport w)))
  = mkCameraControl h cport rport.
Proof.
  assert (Hinit : self (snd (__init__ h cport rport w))
                  = mkCameraControl h cport rport) by reflexivity.
  revert Hinit. generalize (snd (__init__ h cport rport w)) as w0.
  unfold perform_all.
  induction ops as [|op ops IH]; intros w0 H0; simpl; [exact H0|].
  apply IH. rewrite perform_same_self. exact H0.
Qed.

(** ** Exact runs of the network primitives *)

Lemma bind_return {A B} (c : Py A) (k : A -> Py B) w a w' :
  c w = (Return a, w') -> bind c k w = k a w'.
Proof. intros H; unfold bind; rewrite H; reflexivity. Qed.

Lemma bind_raise {A B} (c : Py A) (k : A -> Py B) w e w' :
  c w = (Raise e, w') -> bind c k w = (Raise e, w').
Proof. intros H; unfold bind; rewrite H; reflexivity. Qed.

(** A run that returns, written with its own final world. *)
Lemma returns_with {A} (c : Py A) (w : World) (a : A) :
  fst (c w) = Return a -> c w = (Return a, snd (c w)).
Proof. destruct (c w) as [r w']; simpl; intros ->; reflexivity. Qed.

(** Closes a goal between closed terms by evaluation. *)
Ltac by_evaluation := vm_compute; reflexivity.

Lemma create_connection_accepted h p sf rcv rest w :
  net w = Accepted sf rcv :: rest ->
  create_connection h p w
  = (Return (mkSocket sf rcv), set_net rest (add_events [EvConnect h p] w)).
Proof.
  intros H. unfold create_connection, bind, emit, get; simpl.
  rewrite H. reflexivity.
Qed.

Lemma create_connection_unreachable h p e rest w :
  net w = Unreachable e :: rest ->
  create_connection h p w
  = (Raise e, set_net rest (add_events [EvConnect h p] w)).
Proof.
  intros H. unfold create_connection, bind, emit, get; simpl.
  rewrite H. reflexivity.
Qed.

Lemma create_connection_nobody h p w :
  net w = [] ->
  create_connection h p w = (Raise timed_out, add_events [EvConnect h p] w).
Proof.
  intros H. unfold create_connection, bind, emit, get; simpl.
  rewrite H. reflexivity.
Qed.

(** The receive loop reads every chunk and stops at the first empty read;
    what the script holds after the close is never looked at. *)
Lemma recv_loop_drains chunks : forall acc more w,
  Forall (fun c : bytes => c <> []) chunks ->
  recv_loop (map Chunk chunks ++ Chunk [] :: more) acc w
  = (Return (acc ++ List.concat chunks),
     add_events (repeat (EvRecv 4096) (S (List.length chunks))) w).
Proof.
  induction chunks as [|c chunks IH]; intros acc more w Hne.
  - simpl. rewrite app_nil_r. reflexivity.
  - inversion Hne as [|? ? Hc Hrest]; subst.
    destruct c as [|x c]; [contradiction|].
    cbn [map app recv_loop]. unfold bind at 1. cbn [emit].
    rewrite IH by assumption.
    cbn [List.concat List.length repeat]. rewrite <- app_assoc.
    unfold add_events, add_event; simpl. rewrite <- app_assoc. reflexivity.
Qed.

Lemma _send_to_socket_ok h p data rcv rest w :
  net w = Accepted None rcv :: rest ->
  _send_to_socket h p data w
  = (Return tt,
     set_net rest (add_events [EvConnect h p; EvSendAll data; EvClose] w)).
Proof.
  intros H. unfold _send_to_socket, try_except, with_connection.
  rewrite (bind_return _ _ _ _ _ (create_connection_accepted h p _ _ _ _ H)).
  unfold finally, sendall, bind, emit; simpl.
  unfold set_net, add_events, add_event; simpl.
  rewrite <- !app_assoc. reflexivity.
Qed.

Lemma _receive_from_socket_ok h p sf chunks more rest w :
  Forall (fun c : bytes => c <> []) chunks ->
  net w = Accepted sf (map Chunk chunks ++ Chunk [] :: more) :: rest ->
  _receive_from_socket h p w
  = (Return (List.concat chunks),
     set_net rest
       (add_events (EvConnect h p
                    :: repeat (EvRecv 4096) (S (List.length chunks))
                    ++ [EvClose]) w)).
Proof.
  intros Hne H. unfold _receive_from_socket, try_except, with_connection.
  rewrite (bind_return _ _ _ _ _ (create_connection_accepted h p _ _ _ _ H)).
  unfold finally. cbn [sock_rcv]. rewrite recv_loop_drains by assumption.
  unfold set_net, add_events, add_event; simpl.
  rewrite <- !app_assoc. reflexivity.
Qed.

(** A round trip with a control peer that accepts the command and a results
    peer that sends [chunks] and closes. *)
Lemma send_command_ok command chunks rcv0 sf more rest w :
  Forall (fun c : bytes => c <> []) chunks ->
  net w = Accepted None rcv0
          :: Accepted sf (map Chunk chunks ++ Chunk [] :: more) :: rest ->
  send_command command w
  = (Return (List.concat chunks),
     set_net rest
       (add_events
          ([EvLog INFO ("Sending command: " ++ strip command);
            EvConnect (host (self w)) (control_port (self w));
            EvSendAll (encode_utf8 command);
            EvClose;
            EvConnect (host (self w)) (results_port (self w))]
           ++ repeat (EvRecv 4096) (S (List.length chunks))
           ++ [EvClose]) w)).
Proof.
  intros Hne H. unfold send_command, logger_info.
  unfold bind at 1. cbn [emit].
  unfold bind at 1. cbn [get].
  erewrite bind_return; [|eapply _send_to_socket_ok; simpl; exact H].
  unfold bind at 1. cbn [get].
  erewrite _receive_from_socket_ok; [|exact Hne|simpl; reflexivity].
  unfold set_net, add_events, add_event; simpl.
  rewrite <- !app_assoc. reflexivity.
Qed.

(** C6. When the results peer delivers the non-empty chunks [chunks] and then
    closes (a zero-length read), send_command returns exactly their
    concatenation in order; it makes one [recv] call per chunk plus the one
    that sees the close, and none after it. *)
Theorem send_command_returns_concatenation
    (command : string) (chunks : list bytes) (rcv0 : list RecvStep)
    (sf : option exn) (more : list RecvStep) (rest : list ConnScript)
    (w : World) :
  Forall (fun c : bytes => c <> []) chunks ->
  net w = Accepted None rcv0
          :: Accepted sf (map Chunk chunks ++ Chunk [] :: more) :: rest ->
  fst (send_command command w) = Return (List.concat chunks)
  /\ trace (snd (send_command command w))
     = trace w
       ++ [EvLog INFO ("Sending command: " ++ strip command);
           EvConnect (host (self w)) (control_port (self w));
           EvSendAll (encode_utf8 command);
           EvClose;
           EvConnect (host (self w)) (results_port (self w))]
       ++ repeat (EvRecv 4096) (S (List.length chunks))
       ++ [EvClose].
Proof.
  intros Hne H.
  rewrite (send_command_ok command chunks rcv0 sf more rest w Hne H).
  split; reflexivity.
Qed.

Lemma send_command_returns_concatenation_witness :
  Forall (fun c : bytes => c <> []) three_chunks
  /\ fst (send_command ("getresultimage" ++ CRLF) world_three_chunks)
     = Return (b "HEADER/9j/4EpQRUdEQVRB").
Proof.
  split.
  - repeat constructor; discriminate.
  - apply (send_command_returns_concatenation
             ("getresultimage" ++ CRLF) three_chunks [Chunk []] None
             [Chunk (b "late")] [] world_three_chunks).
    + repeat constructor; discriminate.
    + reflexivity.
Defined.

(** ** What a computation adds to the trace, and what it leaves on disk *)

Lemma emits_refl P w : emits P w w.
Proof. exists []. rewrite app_nil_r. auto. Qed.

Lemma emits_trans P w1 w2 w3 :
  emits P w1 w2 -> emits P w2 w3 -> emits P w1 w3.
Proof.
  intros (d1 & H1 & P1) (d2 & H2 & P2). exists (d1 ++ d2).
  rewrite H2, H1, app_assoc, forallb_app, P1, P2. auto.
Qed.

Lemma emits_event P e w : P e = true -> emits P w (add_event e w).
Proof. intros H. exists [e]; simpl. rewrite H. auto. Qed.

Lemma emits_net P n w : emits P w (set_net n w).
Proof. exists []; simpl. rewrite app_nil_r. auto. Qed.

Lemma same_files_trans w1 w2 w3 :
  same_files w1 w2 -> same_files w2 w3 -> same_files w1 w3.
Proof. unfold same_files; congruence. Qed.

(** The network exchange never touches the disk. *)
Lemma send_command_same_files command w :
  files (snd (send_command command w)) = files w.
Proof.
  apply (respects_send_command same_files (fun _ => true));
    try (repeat split; auto; fail).
  apply same_files_trans.
Qed.

Lemma trigger_same_files w : files (snd (trigger w)) = files w.
Proof.
  apply (respects_trigger same_files (fun _ => true));
    try (repeat split; auto; fail).
  apply same_files_trans.
Qed.

Lemma send_command_no_file_event command w :
  emits not_file_event w (snd (send_command command w)).
Proof.
  apply (respects_send_command (emits not_file_event) not_file_event
           (emits_refl _) (emits_trans _) (emits_event _) (emits_net _)).
  - reflexivity.
  - repeat split; auto.
Qed.

Lemma trigger_no_file_event w : emits not_file_event w (snd (trigger w)).
Proof.
  apply (respects_trigger (emits not_file_event) not_file_event
           (emits_refl _) (emits_trans _) (emits_event _) (emits_net _)).
  - reflexivity.
  - reflexivity.
  - repeat split; auto.
Qed.

(** ** acquire_image, step by step *)

(** Once the trigger and the query have returned, acquire_image is the branch
    on the marker. *)
Lemma acquire_image_run w w1 w2 response :
  trigger (add_event ACQUIRING w) = (Return tt, w1) ->
  send_command ("getresultimage" ++ CRLF) w1 = (Return response, w2) ->
  acquire_image w
  = if bytes_contains MARKER response
    then _process_image_data response w2
    else (Return tt, add_event NO_IMAGE w2).
Proof.
  intros Ht Hs. unfold acquire_image, logger_info.
  unfold bind at 1. cbn [emit].
  rewrite (bind_return _ _ _ _ _ Ht), (bind_return _ _ _ _ _ Hs).
  destruct (bytes_contains MARKER response); reflexivity.
Qed.

Lemma acquire_image_prefix_no_file w w1 w2 response :
  trigger (add_event ACQUIRING w) = (Return tt, w1) ->
  send_command ("getresultimage" ++ CRLF) w1 = (Return response, w2) ->
  files w2 = files w /\ emits not_file_event w w2.
Proof.
  intros Ht Hs.
  assert (E2 : w2 = snd (send_command ("getresultimage" ++ CRLF) w1))
    by (rewrite Hs; reflexivity).
  assert (E1 : w1 = snd (trigger (add_event ACQUIRING w)))
    by (rewrite Ht; reflexivity).
  split.
  - rewrite E2, send_command_same_files, E1, trigger_same_files.
    reflexivity.
  - apply emits_trans with (add_event ACQUIRING w);
      [apply emits_event; reflexivity|].
    apply emits_trans with w1.
    + rewrite E1. apply trigger_no_file_event.
    + rewrite E2. apply send_command_no_file_event.
Qed.

(** C2. When the response to [getresultimage] does not contain the marker,
    acquire_image logs the warning, returns normally, and writes no file: the
    files are those it started with and it makes no open or write call. *)
Theorem acquire_image_without_marker (w w1 w2 : World) (response : bytes) :
  trigger (add_event ACQUIRING w) = (Return tt, w1) ->
  send_command ("getresultimage" ++ CRLF) w1 = (Return response, w2) ->
  bytes_contains MARKER response = false ->
  acquire_image w = (Return tt, add_event NO_IMAGE w2)
  /\ files (snd (acquire_image w)) = files w
  /\ emits not_file_event w (snd (acquire_image w)).
Proof.
  intros Ht Hs Hm.
  destruct (acquire_image_prefix_no_file w w1 w2 response Ht Hs) as [Hf He].
  rewrite (acquire_image_run w w1 w2 response Ht Hs), Hm. simpl.
  repeat split; [exact Hf|].
  apply emits_trans with w2; [exact He | apply emits_event; reflexivity].
Qed.

Lemma acquire_image_without_marker_witness :
  bytes_contains MARKER (b "no picture yet") = false
  /\ fst (acquire_image world_no_image) = Return tt
  /\ files (snd (acquire_image world_no_image)) = [].
Proof.
  assert (Hm : bytes_contains MARKER (b "no picture yet") = false)
    by by_evaluation.
  assert (Ht : trigger (add_event ACQUIRING world_no_image)
               = (Return tt, after_trigger world_no_image))
    by (apply (returns_with trigger); by_evaluation).
  assert (Hs : send_command ("getresultimage" ++ CRLF)
                 (after_trigger world_no_image)
               = (Return (b "no picture yet"), after_query world_no_image))
    by (apply (returns_with (send_command ("getresultimage" ++ CRLF)));
        by_evaluation).
  split; [exact Hm|].
  destruct (acquire_image_without_marker world_no_image _ _ _ Ht Hs Hm)
    as (H1 & H2 & _).
  split; [rewrite H1; reflexivity | exact H2].
Defined.

(** C10. When the results peer closes right after the connection is made (the
    first read is zero-length), send_command returns the empty byte sequence;
    acquire_image, whose trigger has returned, then logs the warning, writes
    no file and returns normally. *)
Theorem acquire_image_after_immediate_close
    (w w1 : World) (rcv0 : list RecvStep) (sf : option exn)
    (more : list RecvStep) (rest : list ConnScript) :
  trigger (add_event ACQUIRING w) = (Return tt, w1) ->
  net w1 = Accepted None rcv0 :: Accepted sf (Chunk [] :: more) :: rest ->
  fst (send_command ("getresultimage" ++ CRLF) w1) = Return []
  /\ acquire_image w
     = (Return tt,
        set_net rest
          (add_events
             [EvLog INFO "Sending command: getresultimage";
              EvConnect (host (self w1)) (control_port (self w1));
              EvSendAll (b "getresultimage" ++ [x0d; x0a]);
              EvClose;
              EvConnect (host (self w1)) (results_port (self w1));
              EvRecv 4096;
              EvClose;
              NO_IMAGE] w1))
  /\ files (snd (acquire_image w)) = files w
  /\ emits not_file_event w (snd (acquire_image w)).
Proof.
  intros Ht Hn.
  pose proof (send_command_ok ("getresultimage" ++ CRLF) [] rcv0 sf more rest
                w1 (Forall_nil _) Hn) as Hs.
  destruct (acquire_image_prefix_no_file w w1 _ [] Ht Hs) as [Hf He].
  split; [rewrite Hs; reflexivity|].
  rewrite (acquire_image_run w w1 _ [] Ht Hs).
  change (bytes_contains MARKER []) with false. cbv iota.
  split; [|split].
  - unfold add_event, add_events, set_net; simpl.
    rewrite <- app_assoc. reflexivity.
  - exact Hf.
  - eapply emits_trans; [exact He | apply emits_event; reflexivity].
Qed.

Lemma acquire_image_after_immediate_close_witness :
  fst (send_command ("getresultimage" ++ CRLF)
         (after_trigger world_closed_at_once))
  = Return []
  /\ fst (acquire_image world_closed_at_once) = Return tt
  /\ files (snd (acquire_image world_closed_at_once)) = [].
Proof.
  assert (Ht : trigger (add_event ACQUIRING world_closed_at_once)
               = (Return tt, after_trigger world_closed_at_once))
    by (apply (returns_with trigger); by_evaluation).
  assert (Hn : net (after_trigger world_closed_at_once)
               = Accepted None [Chunk []] :: Accepted None (Chunk [] :: []) :: [])
    by by_evaluation.
  destruct (acquire_image_after_immediate_close world_closed_at_once _
              _ _ _ _ Ht Hn) as (H1 & H2 & H3 & _).
  split; [exact H1|].
  split; [rewrite H2; reflexivity | exact H3].
Defined.

(** ** The image step *)

Lemma bytes_split_MARKER response :
  bytes_split response MARKER = Return (split_scan MARKER response 0 []).
Proof. reflexivity. Qed.

(** Whatever happens inside, [_process_image_data] returns normally: its
    [except Exception] clause catches every exception of the model and its
    handler only logs. *)
Lemma _process_image_data_returns response w :
  fst (_process_image_data response w) = Return tt.
Proof.
  unfold _process_image_data, try_except.
  match goal with |- context [match ?body w with _ => _ end] =>
    destruct (body w) as [[[]|e] w'] end; [reflexivity|].
  cbn [select_handler]. rewrite matches_Exception. reflexivity.
Qed.

Lemma _process_image_data_decode_error response base64_data e w :
  nth_error (split_scan MARKER response 0 []) 1 = Some base64_data ->
  b64decode (MARKER ++ base64_data) = Raise e ->
  _process_image_data response w = (Return tt, add_event (PROCESSING_ERROR e) w).
Proof.
  intros Hp Hd. unfold _process_image_data, try_except.
  rewrite bytes_split_MARKER. unfold bind at 1. cbn [lift].
  unfold getitem. rewrite Hp. unfold bind at 1. cbn [lift].
  rewrite Hd. unfold bind at 1. cbn [lift select_handler].
  rewrite matches_Exception. reflexivity.
Qed.

(** C3. When the response contains the marker but the base64 decoding of the
    extracted data fails, the failure is caught and logged, nothing else
    happens, and acquire_image returns normally. *)
Theorem acquire_image_decode_failure
    (w w1 w2 : World) (response base64_data : bytes) (e : exn) :
  trigger (add_event ACQUIRING w) = (Return tt, w1) ->
  send_command ("getresultimage" ++ CRLF) w1 = (Return response, w2) ->
  bytes_contains MARKER response = true ->
  nth_error (split_scan MARKER response 0 []) 1 = Some base64_data ->
  b64decode (MARKER ++ base64_data) = Raise e ->
  acquire_image w = (Return tt, add_event (PROCESSING_ERROR e) w2)
  /\ files (snd (acquire_image w)) = files w.
Proof.
  intros Ht Hs Hm Hp Hd.
  rewrite (acquire_image_run w w1 w2 response Ht Hs), Hm.
  rewrite (_process_image_data_decode_error response base64_data e w2 Hp Hd).
  split; [reflexivity|]. simpl.
  apply (acquire_image_prefix_no_file w w1 w2 response Ht Hs).
Qed.

Lemma acquire_image_decode_failure_witness :
  bytes_contains MARKER (b "garbage/9j/AAAAA") = true
  /\ b64decode (b "/9j/AAAAA")
     = Raise (mk_exn binascii_Error
         "Invalid base64-encoded string: number of data characters (9) cannot be 1 more than a multiple of 4")
  /\ fst (acquire_image world_truncated_image) = Return tt
  /\ files (snd (acquire_image world_truncated_image)) = [].
Proof.
  assert (Hm : bytes_contains MARKER (b "garbage/9j/AAAAA") = true)
    by by_evaluation.
  assert (Ht : trigger (add_event ACQUIRING world_truncated_image)
               = (Return tt, after_trigger world_truncated_image))
    by (apply (returns_with trigger); by_evaluation).
  assert (Hs : send_command ("getresultimage" ++ CRLF)
                 (after_trigger world_truncated_image)
               = (Return (b "garbage/9j/AAAAA"),
                  after_query world_truncated_image))
    by (apply (returns_with (send_command ("getresultimage" ++ CRLF)));
        by_evaluation).
  assert (Hp : nth_error (split_scan MARKER (b "garbage/9j/AAAAA") 0 []) 1
               = Some (b "AAAAA")) by by_evaluation.
  assert (Hd : b64decode (MARKER ++ b "AAAAA")
               = Raise (mk_exn binascii_Error
         "Invalid base64-encoded string: number of data characters (9) cannot be 1 more than a multiple of 4"))
    by by_evaluation.
  split; [exact Hm|].
  split; [exact Hd|].
  destruct (acquire_image_decode_failure world_truncated_image _ _ _ _ _
              Ht Hs Hm Hp Hd) as (H1 & H2).
  split; [rewrite H1; reflexivity | exact H2].
Defined.

(** ** The save step *)

Lemma save_image_data_ok image_data path w :
  disk w path = None ->
  save_image_data image_data path w
  = (Return tt,
     add_events [EvOpen path; EvWrite path image_data]
       (set_files ((path, image_data) :: files w) w)).
Proof.
  intros H. unfold save_image_data, try_except, write_binary_file.
  unfold bind, emit, get, modify; simpl. rewrite H.
  unfold add_events, add_event, set_files; simpl.
  rewrite <- app_assoc. reflexivity.
Qed.

Lemma save_image_data_fault image_data path fault w :
  disk w path = Some fault ->
  issubclass (exn_class (fault_exn fault)) OSError = true ->
  save_image_data image_data path w
  = (Raise (SAVE_ERROR path (fault_exn fault)),
     after_fault path fault (add_event (EvOpen path) w)).
Proof.
  intros H Hc. unfold save_image_data, try_except, write_binary_file.
  unfold bind, emit, get, modify; simpl. rewrite H.
  destruct fault as [e|e]; simpl in *; unfold matches; simpl;
    rewrite Hc; reflexivity.
Qed.

Lemma _process_image_data_saved response base64_data image_data w :
  nth_error (split_scan MARKER response 0 []) 1 = Some base64_data ->
  b64decode (MARKER ++ base64_data) = Return image_data ->
  disk w (image_path (clock w)) = None ->
  _process_image_data response w
  = (Return tt,
     add_events
       [EvOpen (image_path (clock w));
        EvWrite (image_path (clock w)) image_data;
        EvLog INFO ("Image saved successfully: " ++ image_filename (clock w))]
       (set_files ((image_path (clock w), image_data) :: files w) w)).
Proof.
  intros Hp Hd Hk. unfold _process_image_data, try_except.
  rewrite bytes_split_MARKER. unfold bind at 1. cbn [lift].
  unfold getitem. rewrite Hp. unfold bind at 1. cbn [lift].
  rewrite Hd. unfold bind at 1. cbn [lift].
  unfold bind at 1, now_strftime. cbn [get].
  change ("./images/" ++ "output_image_" ++ clock w ++ ".jpg")%string
    with (image_path (clock w)).
  erewrite bind_return; [|apply save_image_data_ok; exact Hk].
  unfold logger_info, emit, add_events, add_event, set_files; simpl.
  rewrite <- app_assoc. reflexivity.
Qed.

Lemma _process_image_data_save_fault response base64_data image_data fault w :
  nth_error (split_scan MARKER response 0 []) 1 = Some base64_data ->
  b64decode (MARKER ++ base64_data) = Return image_data ->
  disk w (image_path (clock w)) = Some fault ->
  issubclass (exn_class (fault_exn fault)) OSError = true ->
  _process_image_data response w
  = (Return tt,
     add_event
       (PROCESSING_ERROR (SAVE_ERROR (image_path (clock w)) (fault_exn fault)))
       (after_fault (image_path (clock w)) fault
          (add_event (EvOpen (image_path (clock w))) w))).
Proof.
  intros Hp Hd Hk Hc. unfold _process_image_data, try_except.
  rewrite bytes_split_MARKER. unfold bind at 1. cbn [lift].
  unfold getitem. rewrite Hp. unfold bind at 1. cbn [lift].
  rewrite Hd. unfold bind at 1. cbn [lift].
  unfold bind at 1, now_strftime. cbn [get].
  change ("./images/" ++ "output_image_" ++ clock w ++ ".jpg")%string
    with (image_path (clock w)).
  erewrite bind_raise; [|apply save_image_data_fault; [exact Hk | exact Hc]].
  cbn [select_handler]. rewrite matches_Exception. reflexivity.
Qed.

(** C4, as the code has it.  When the image file cannot be opened or written
    (an [OSError]), [save_image_data] raises an [OSError] that names the path
    and the cause to its caller [_process_image_data]; there it is caught and
    logged like a decode failure, and acquire_image returns normally. *)
Theorem acquire_image_file_write_failure
    (w w1 w2 : World) (response base64_data image_data : bytes)
    (fault : FileFault) :
  trigger (add_event ACQUIRING w) = (Return tt, w1) ->
  send_command ("getresultimage" ++ CRLF) w1 = (Return response, w2) ->
  bytes_contains MARKER response = true ->
  nth_error (split_scan MARKER response 0 []) 1 = Some base64_data ->
  b64decode (MARKER ++ base64_data) = Return image_data ->
  disk w2 (image_path (clock w2)) = Some fault ->
  issubclass (exn_class (fault_exn fault)) OSError = true ->
  fst (save_image_data image_data (image_path (clock w2)) w2)
  = Raise (SAVE_ERROR (image_path (clock w2)) (fault_exn fault))
  /\ acquire_image w
     = (Return tt,
        add_event
          (PROCESSING_ERROR
             (SAVE_ERROR (image_path (clock w2)) (fault_exn fault)))
          (after_fault (image_path (clock w2)) fault
             (add_event (EvOpen (image_path (clock w2))) w2))).
Proof.
  intros Ht Hs Hm Hp Hd Hk Hc. split.
  - rewrite (save_image_data_fault image_data _ fault w2 Hk Hc). reflexivity.
  - rewrite (acquire_image_run w w1 w2 response Ht Hs), Hm.
    apply (_process_image_data_save_fault response base64_data image_data
             fault w2 Hp Hd Hk Hc).
Qed.

Lemma acquire_image_file_write_failure_witness :
  fst (save_image_data six_bytes
         (image_path (clock (after_query world_missing_directory)))
         (after_query world_missing_directory))
  = Raise (SAVE_ERROR
             (image_path (clock (after_query world_missing_directory)))
             (fault_exn (OpenFails no_such_directory)))
  /\ fst (acquire_image world_missing_directory) = Return tt.
Proof.
  assert (Ht : trigger (add_event ACQUIRING world_missing_directory)
               = (Return tt, after_trigger world_missing_directory))
    by (apply (returns_with trigger); by_evaluation).
  assert (Hs : send_command ("getresultimage" ++ CRLF)
                 (after_trigger world_missing_directory)
               = (Return (b "garbage/9j/AAAA=="),
                  after_query world_missing_directory))
    by (apply (returns_with (send_command ("getresultimage" ++ CRLF)));
        by_evaluation).
  assert (Hm : bytes_contains MARKER (b "garbage/9j/AAAA==") = true)
    by by_evaluation.
  assert (Hp : nth_error (split_scan MARKER (b "garbage/9j/AAAA==") 0 []) 1
               = Some (b "AAAA==")) by by_evaluation.
  assert (Hd : b64decode (MARKER ++ b "AAAA==") = Return six_bytes)
    by by_evaluation.
  assert (Hk : disk (after_query world_missing_directory)
                 (image_path (clock (after_query world_missing_directory)))
               = Some (OpenFails no_such_directory)) by by_evaluation.
  assert (Hc : issubclass (exn_class (fault_exn (OpenFails no_such_directory)))
                 OSError = true) by by_evaluation.
  destruct (acquire_image_file_write_failure world_missing_directory _ _ _ _ _ _
              Ht Hs Hm Hp Hd Hk Hc) as (H1 & H2).
  split; [exact H1 | rewrite H2; reflexivity].
Defined.

(** C4, as the spec states it, fails: in this run the open of the output file
    fails (the [images] directory is missing), the failure reaches the caller
    of the save step, and yet acquire_image returns normally, having logged
    the error and written no file. *)
Lemma file_write_failure_does_not_propagate :
  disk world_missing_directory "./images/output_image_20240102_030405.jpg"
  = Some (OpenFails no_such_directory)
  /\ (exists e,
       fst (save_image_data six_bytes
              "./images/output_image_20240102_030405.jpg"
              (after_query world_missing_directory)) = Raise e)
  /\ fst (acquire_image world_missing_directory) = Return tt
  /\ files (snd (acquire_image world_missing_directory)) = []
  /\ last (trace (snd (acquire_image world_missing_directory))) EvClose
     = EvLog ERROR
         "Error processing image data: Failed to save image to ./images/output_image_20240102_030405.jpg. Error: [Errno 2] No such file or directory".
Proof.
  split; [reflexivity|].
  split; [eexists; by_evaluation|].
  repeat split; by_evaluation.
Qed.

(** ** What is extracted from the response *)

Lemma is_prefix_app sep s :
  is_prefix sep s = true -> s = sep ++ skipn (List.length sep) s.
Proof.
  revert s; induction sep as [|x sep IH]; intros s H; [reflexivity|].
  destruct s as [|y s]; [discriminate|]. simpl in H.
  apply andb_true_iff in H as [Hxy Hp].
  apply Byte.byte_dec_bl in Hxy; subst y.
  simpl. f_equal. apply IH, Hp.
Qed.

Lemma is_prefix_length sep s :
  is_prefix sep s = true -> List.length sep <= List.length s.
Proof.
  intros H. apply is_prefix_app in H.
  apply (f_equal (@List.length byte)) in H.
  rewrite length_app in H. lia.
Qed.

Lemma bytes_find_None sub s :
  bytes_find sub s = None <-> bytes_contains sub s = false.
Proof.
  induction s as [|x s IH]; cbn [bytes_find bytes_contains].
  - destruct (is_prefix sub []); simpl; split; intros H; congruence.
  - destruct (is_prefix sub (x :: s)); simpl; [split; intros H; congruence|].
    destruct (bytes_find sub s); simpl.
    + split; intros H; [discriminate|]. apply IH in H. discriminate.
    + split; intros _; [apply IH|]; reflexivity.
Qed.

Lemma bytes_find_Some sub s i :
  bytes_find sub s = Some i -> is_prefix sub (skipn i s) = true.
Proof.
  revert i; induction s as [|x s IH]; intros i; cbn [bytes_find].
  - destruct (is_prefix sub []) eqn:E; intros H; inversion H; subst. exact E.
  - destruct (is_prefix sub (x :: s)) eqn:E; intros H.
    + inversion H; subst. exact E.
    + destruct (bytes_find sub s) as [j|]; simpl in H; inversion H; subst.
      simpl. apply IH. reflexivity.
Qed.

(** Passing over the rest of a matched separator. *)
Lemma split_scan_skip sep : forall s k cur,
  k <= List.length s ->
  split_scan sep s k cur = split_scan sep (skipn k s) 0 cur.
Proof.
  induction s as [|x s IH]; intros k cur Hk; simpl in Hk.
  - assert (k = 0) by lia. subst. reflexivity.
  - destruct k as [|k]; [reflexivity|].
    cbn [split_scan skipn]. apply IH. lia.
Qed.

(** Without an occurrence of the separator there is one piece. *)
Lemma split_scan_no_occurrence sep : forall s cur,
  bytes_contains sep s = false ->
  split_scan sep s 0 cur = [rev cur ++ s].
Proof.
  induction s as [|x s IH]; intros cur H.
  - simpl. rewrite app_nil_r. reflexivity.
  - cbn [bytes_contains] in H. apply orb_false_iff in H as [Hp Hc].
    cbn [split_scan]. rewrite Hp, (IH _ Hc). simpl.
    rewrite <- app_assoc. reflexivity.
Qed.

(** The first piece ends where the separator first occurs, and the scan goes
    on behind that occurrence. *)
Lemma split_scan_first_occurrence sep : forall s cur i,
  sep <> [] ->
  bytes_find sep s = Some i ->
  split_scan sep s 0 cur
  = (rev cur ++ firstn i s)
    :: split_scan sep (skipn (i + List.length sep) s) 0 [].
Proof.
  induction s as [|x s IH]; intros cur i Hne Hf; cbn [bytes_find] in Hf.
  - destruct sep; [contradiction | discriminate].
  - destruct (is_prefix sep (x :: s)) eqn:E.
    + inversion Hf; subst i. cbn [split_scan]. rewrite E.
      rewrite app_nil_r. f_equal.
      pose proof (is_prefix_length _ _ E) as Hl.
      destruct sep as [|y sep]; [contradiction|]. simpl in Hl.
      simpl. rewrite Nat.sub_0_r. apply split_scan_skip. lia.
    + destruct (bytes_find sep s) as [j|] eqn:Ej; simpl in Hf;
        inversion Hf; subst i.
      cbn [split_scan]. rewrite E. rewrite (IH _ j Hne eq_refl).
      simpl. rewrite <- app_assoc. reflexivity.
Qed.

(** What [response.split(b"/9j/")[1]] is: the bytes behind the first marker,
    up to the next marker behind it when there is one. *)
Lemma split_second_piece response i :
  bytes_find MARKER response = Some i ->
  let behind := skipn (i + 4) response in
  nth_error (split_scan MARKER response 0 []) 1
  = Some match bytes_find MARKER behind with
         | Some j => firstn j behind
         | None => behind
         end.
Proof.
  intros Hf behind.
  rewrite (split_scan_first_occurrence MARKER response [] i
             ltac:(discriminate) Hf).
  change (List.length MARKER) with 4. fold behind. cbn [nth_error].
  destruct (bytes_find MARKER behind) as [j|] eqn:Ej.
  - rewrite (split_scan_first_occurrence MARKER behind [] j
               ltac:(discriminate) Ej). reflexivity.
  - rewrite split_scan_no_occurrence by (apply bytes_find_None, Ej).
    reflexivity.
Qed.

(** With a single marker the code decodes the sub-sequence from the marker to
    the end of the response. *)
Lemma single_marker_payload response i :
  bytes_find MARKER response = Some i ->
  bytes_contains MARKER (skipn (i + 4) response) = false ->
  exists base64_data,
    nth_error (split_scan MARKER response 0 []) 1 = Some base64_data
    /\ Some (MARKER ++ base64_data) = from_first_marker response.
Proof.
  intros Hf Hc. exists (skipn (i + 4) response). split.
  - rewrite (split_second_piece response i Hf).
    apply bytes_find_None in Hc. rewrite Hc. reflexivity.
  - unfold from_first_marker. rewrite Hf. cbn [option_map]. f_equal.
    pose proof (is_prefix_app MARKER (skipn i response)
                  (bytes_find_Some _ _ _ Hf)) as E.
    rewrite skipn_skipn in E. change (List.length MARKER) with 4 in E.
    rewrite E. f_equal. f_equal. lia.
Qed.

(** A response that contains the marker always has a second piece: inside
    acquire_image the index [1] never raises. *)
Lemma marker_gives_second_piece response :
  bytes_contains MARKER response = true ->
  exists base64_data,
    nth_error (split_scan MARKER response 0 []) 1 = Some base64_data.
Proof.
  intros H. destruct (bytes_find MARKER response) as [i|] eqn:E.
  - eexists. apply (split_second_piece response i E).
  - apply bytes_find_None in E. congruence.
Qed.

(** The responses on which the extraction does reach the end.  When the
    marker occurs in the response and does not occur again behind its first
    occurrence, acquire_image base64-decodes exactly the sub-sequence from the
    marker to the end of the response; when the decoding succeeds, and the
    output file can be written, the decoded bytes are written to
    [./images/output_image_<timestamp>.jpg]; when it fails, the error is
    logged.  In both cases acquire_image returns. *)
Theorem acquire_image_single_marker
    (w w1 w2 : World) (response : bytes) (i : nat) :
  trigger (add_event ACQUIRING w) = (Return tt, w1) ->
  send_command ("getresultimage" ++ CRLF) w1 = (Return response, w2) ->
  bytes_find MARKER response = Some i ->
  bytes_contains MARKER (skipn (i + 4) response) = false ->
  disk w2 (image_path (clock w2)) = None ->
  from_first_marker response = Some (skipn i response)
  /\ acquire_image w
     = (Return tt,
        match b64decode (skipn i response) with
        | Return image_data => saved image_data w2
        | Raise e => add_event (PROCESSING_ERROR e) w2
        end).
Proof.
  intros Ht Hs Hf Hc Hk.
  split; [unfold from_first_marker; rewrite Hf; reflexivity|].
  assert (Hm : bytes_contains MARKER response = true).
  { destruct (bytes_contains MARKER response) eqn:E; [reflexivity|].
    apply bytes_find_None in E. congruence. }
  destruct (single_marker_payload response i Hf Hc) as (base64_data & Hp & Hq).
  unfold from_first_marker in Hq. rewrite Hf in Hq. cbn [option_map] in Hq.
  assert (Hq' : skipn i response = MARKER ++ base64_data) by congruence.
  rewrite (acquire_image_run w w1 w2 response Ht Hs), Hm, Hq'.
  destruct (b64decode (MARKER ++ base64_data)) as [image_data|e] eqn:Hd.
  - apply (_process_image_data_saved response base64_data image_data w2
             Hp Hd Hk).
  - apply (_process_image_data_decode_error response base64_data e w2 Hp Hd).
Qed.

Lemma acquire_image_single_marker_witness :
  from_first_marker (b "...garbage.../9j/AAAA==") = Some (b "/9j/AAAA==")
  /\ b64decode (b "/9j/AAAA==") = Return six_bytes
  /\ fst (acquire_image world_with_image) = Return tt
  /\ files (snd (acquire_image world_with_image))
     = [("./images/output_image_20240102_030405.jpg", six_bytes)].
Proof.
  assert (Ht : trigger (add_event ACQUIRING world_with_image)
               = (Return tt, after_trigger world_with_image))
    by (apply (returns_with trigger); by_evaluation).
  assert (Hs : send_command ("getresultimage" ++ CRLF)
                 (after_trigger world_with_image)
               = (Return (b "...garbage.../9j/AAAA=="),
                  after_query world_with_image))
    by (apply (returns_with (send_command ("getresultimage" ++ CRLF)));
        by_evaluation).
  assert (Hf : bytes_find MARKER (b "...garbage.../9j/AAAA==") = Some 13)
    by by_evaluation.
  assert (Hc : bytes_contains MARKER
                 (skipn (13 + 4) (b "...garbage.../9j/AAAA==")) = false)
    by by_evaluation.
  assert (Hk : disk (after_query world_with_image)
                 (image_path (clock (after_query world_with_image))) = None)
    by by_evaluation.
  destruct (acquire_image_single_marker world_with_image _ _ _ 13
              Ht Hs Hf Hc Hk) as (H1 & H2).
  split; [rewrite H1; by_evaluation|].
  split; [by_evaluation|].
  rewrite H2. split; [reflexivity | by_evaluation].
Defined.

(** C1.  The extraction does not reach the end of the response when the
    marker occurs again behind its first occurrence:
    [response.split(b"/9j/")[1]] ends at the second marker.  For the response
    [x/9j/AAAA/9j/BBBB] the sub-sequence from the first marker to the end is
    [/9j/AAAA/9j/BBBB], whose decoding has twelve bytes; acquire_image decodes
    [/9j/AAAA] only, writes its six bytes and logs a success. *)
Theorem acquire_image_stops_at_second_marker :
  bytes_contains MARKER (b "x/9j/AAAA/9j/BBBB") = true
  /\ fst (send_command ("getresultimage" ++ CRLF)
            (after_trigger world_two_markers))
     = Return (b "x/9j/AAAA/9j/BBBB")
  /\ from_first_marker (b "x/9j/AAAA/9j/BBBB") = Some (b "/9j/AAAA/9j/BBBB")
  /\ b64decode (b "/9j/AAAA/9j/BBBB")
     = Return [xff; xd8; xff; x00; x00; x00; xff; xd8; xff; x04; x10; x41]
  /\ b64decode (b "/9j/AAAA") = Return [xff; xd8; xff; x00; x00; x00]
  /\ fst (acquire_image world_two_markers) = Return tt
  /\ files (snd (acquire_image world_two_markers))
     = [("./images/output_image_20240102_030405.jpg",
         [xff; xd8; xff; x00; x00; x00])]
  /\ last (trace (snd (acquire_image world_two_markers))) EvClose
     = EvLog INFO "Image saved successfully: output_image_20240102_030405.jpg".
Proof. repeat split; by_evaluation. Qed.

(** ** Connection failures *)

Lemma recv_loop_fault : forall rcv acc w e,
  recv_fault rcv = Some e ->
  exists k,
    recv_loop rcv acc w = (Raise e, add_events (repeat (EvRecv 4096) k) w).
Proof.
  induction rcv as [|[chunk|e'] rcv IH]; intros acc w e H; simpl in H.
  - inversion H; subst. exists 1. reflexivity.
  - destruct chunk as [|x chunk]; [discriminate|].
    destruct (IH (acc ++ x :: chunk) (add_event (EvRecv 4096) w) e H)
      as (k & Hk).
    exists (S k). cbn [recv_loop]. unfold bind at 1. cbn [emit].
    rewrite Hk. unfold add_events, add_event; simpl.
    rewrite <- app_assoc. reflexivity.
  - inversion H; subst. exists 1. reflexivity.
Qed.

Lemma _send_to_socket_fault h p data w e :
  control_fault (net w) = Some e ->
  exists d,
    _send_to_socket h p data w
    = (Raise (if matches WRAPPED e
              then mk_exn ConnectionError
                     ("Failed to send data to " ++ h ++ ":" ++ str_of_int p
                      ++ ". Error: " ++ exn_str e)
              else e),
       set_net (tl (net w)) (add_events d w))
    /\ connects d = [(h, p)].
Proof.
  intros H. unfold _send_to_socket, try_except, with_connection.
  destruct (net w) as [|[e'|[e'|] rcv] rest] eqn:Hn; simpl in H;
    inversion H; subst.
  - exists [EvConnect h p].
    rewrite (bind_raise _ _ _ _ _ (create_connection_nobody h p w Hn)).
    cbn [select_handler]. fold WRAPPED.
    destruct (matches WRAPPED timed_out) eqn:E; [|discriminate].
    split; [|reflexivity].
    unfold raise, set_net, add_events; simpl. rewrite Hn. reflexivity.
  - exists [EvConnect h p].
    rewrite (bind_raise _ _ _ _ _ (create_connection_unreachable h p _ _ w Hn)).
    cbn [select_handler tl]. fold WRAPPED.
    split; [|reflexivity].
    destruct (matches WRAPPED e); reflexivity.
  - exists [EvConnect h p; EvSendAll data; EvClose].
    rewrite (bind_return _ _ _ _ _ (create_connection_accepted h p _ _ _ w Hn)).
    unfold finally, sendall. cbn [sock_send_fault]. unfold bind at 1.
    cbn [emit raise select_handler tl]. fold WRAPPED.
    split; [|reflexivity].
    destruct (matches WRAPPED e); unfold raise, set_net, add_events, add_event;
      simpl; rewrite <- !app_assoc; reflexivity.
Qed.

Lemma _receive_from_socket_fault h p w e :
  results_fault (net w) = Some e ->
  exists d,
    _receive_from_socket h p w
    = (Raise (if matches WRAPPED e
              then mk_exn ConnectionError
                     ("Failed to receive data from " ++ h ++ ":"
                      ++ str_of_int p ++ ". Error: " ++ exn_str e)
              else e),
       set_net (tl (net w)) (add_events d w))
    /\ connects d = [(h, p)].
Proof.
  intros H. unfold _receive_from_socket, try_except, with_connection.
  destruct (net w) as [|[e'|sf rcv] rest] eqn:Hn; simpl in H.
  - inversion H; subst. exists [EvConnect h p].
    rewrite (bind_raise _ _ _ _ _ (create_connection_nobody h p w Hn)).
    cbn [select_handler]. fold WRAPPED.
    destruct (matches WRAPPED timed_out) eqn:E; [|discriminate].
    split; [|reflexivity].
    unfold raise, set_net, add_events; simpl. rewrite Hn. reflexivity.
  - inversion H; subst. exists [EvConnect h p].
    rewrite (bind_raise _ _ _ _ _ (create_connection_unreachable h p _ _ w Hn)).
    cbn [select_handler tl]. fold WRAPPED.
    split; [|reflexivity].
    destruct (matches WRAPPED e); reflexivity.
  - rewrite (bind_return _ _ _ _ _ (create_connection_accepted h p _ _ _ w Hn)).
    unfold finally. cbn [sock_rcv].
    destruct (recv_loop_fault rcv []
                (set_net rest (add_events [EvConnect h p] w)) e H) as (k & Hk).
    rewrite Hk. exists (EvConnect h p :: repeat (EvRecv 4096) k ++ [EvClose]).
    cbn [select_handler tl]. fold WRAPPED. split.
    + destruct (matches WRAPPED e); unfold raise, set_net, add_events, add_event;
        simpl; rewrite <- !app_assoc; reflexivity.
    + simpl. rewrite connects_app, connects_recvs. reflexivity.
Qed.

Lemma send_command_fault command w ch e :
  first_fault (net w) = Some (ch, e) ->
  exists d,
    send_command command w
    = (Raise (surfaced ch (self w) e),
       set_net (consumed ch (net w)) (add_events d w))
    /\ connects d = attempts ch (self w).
Proof.
  intros H. unfold first_fault in H. unfold send_command, logger_info.
  unfold bind at 1. cbn [emit]. unfold bind at 1. cbn [get].
  set (w0 := add_event (EvLog INFO ("Sending command: " ++ strip command)) w).
  change (self w0) with (self w).
  destruct (control_fault (net w)) as [e'|] eqn:Hc.
  - inversion H; subst ch e'.
    destruct (_send_to_socket_fault (host (self w)) (control_port (self w))
                (encode_utf8 command) w0 e Hc) as (d & Hd & Hn).
    rewrite (bind_raise _ _ _ _ _ Hd).
    exists (EvLog INFO ("Sending command: " ++ strip command) :: d). split.
    + unfold surfaced, failure_message, consumed, channel_port.
      unfold w0, set_net, add_events, add_event; simpl.
      rewrite <- app_assoc. reflexivity.
    + simpl. exact Hn.
  - destruct (net w) as [|[e'|[e'|] rcv] rest] eqn:Hn; try discriminate.
    simpl in H.
    destruct (results_fault rest) as [e'|] eqn:Hr; inversion H; subst ch e'.
    erewrite bind_return;
      [|eapply _send_to_socket_ok; unfold w0; simpl; exact Hn].
    unfold bind at 1. cbn [get].
    match goal with |- context [_receive_from_socket ?h ?p ?w1] =>
      destruct (_receive_from_socket_fault h p w1 e Hr) as (d & Hd & Hk);
      rewrite Hd end.
    exists ([EvLog INFO ("Sending command: " ++ strip command);
             EvConnect (host (self w)) (control_port (self w));
             EvSendAll (encode_utf8 command); EvClose] ++ d). split.
    + unfold surfaced, failure_message, consumed, channel_port.
      unfold w0, set_net, add_events, add_event; simpl.
      rewrite <- !app_assoc. reflexivity.
    + simpl. rewrite Hk. reflexivity.
Qed.

(** *** The message names the host, the port and the cause *)

Lemma prefix_refl s : String.prefix s s = true.
Proof.
  induction s as [|c s IH]; simpl; [reflexivity|].
  destruct (ascii_dec c c); [exact IH | contradiction].
Qed.

Lemma prefix_append s t : String.prefix s (s ++ t) = true.
Proof.
  induction s as [|c s IH]; simpl; [destruct t; reflexivity|].
  destruct (ascii_dec c c); [exact IH | contradiction].
Qed.

Lemma str_contains_here s t : str_contains s (s ++ t) = true.
Proof.
  destruct s as [|c s]; [destruct t; reflexivity|].
  cbn [append str_contains].
  change (String c (s ++ t))%string with (String c s ++ t)%string.
  rewrite prefix_append. reflexivity.
Qed.

Lemma str_contains_refl s : str_contains s s = true.
Proof.
  destruct s as [|c s]; [reflexivity|].
  cbn [str_contains]. rewrite prefix_refl. reflexivity.
Qed.

Lemma str_contains_behind s a t :
  str_contains s t = true -> str_contains s (a ++ t) = true.
Proof.
  intros H. induction a as [|c a IH]; [exact H|].
  cbn [append str_contains]. rewrite IH. apply orb_true_r.
Qed.

Lemma failure_message_identifies ch cam cause :
  str_contains (host cam) (failure_message ch cam cause) = true
  /\ str_contains (str_of_int (channel_port ch cam))
       (failure_message ch cam cause) = true
  /\ str_contains (exn_str cause) (failure_message ch cam cause) = true.
Proof.
  unfold failure_message. repeat split.
  - apply str_contains_behind, str_contains_here.
  - do 3 apply str_contains_behind. apply str_contains_here.
  - do 5 apply str_contains_behind. apply str_contains_refl.
Qed.

(** C5, as the code has it.  When the connect, send or receive step of a round
    trip fails, send_command raises at once, after one connection attempt per
    channel reached and no second attempt on any.  A timeout or a refusal is
    raised as a [ConnectionError] whose message names the host, the port and
    the cause; any other error, a reset by the peer included, is raised
    unchanged. *)
Theorem send_command_connection_failure
    (command : string) (w : World) (ch : Channel) (e : exn) :
  first_fault (net w) = Some (ch, e) ->
  fst (send_command command w)
  = Raise (if matches [TimeoutError; ConnectionRefusedError] e
           then mk_exn ConnectionError (failure_message ch (self w) e)
           else e)
  /\ (str_contains (host (self w)) (failure_message ch (self w) e) = true
      /\ str_contains (str_of_int (channel_port ch (self w)))
           (failure_message ch (self w) e) = true
      /\ str_contains (exn_str e) (failure_message ch (self w) e) = true)
  /\ exists d,
       trace (snd (send_command command w)) = trace w ++ d
       /\ connects d = attempts ch (self w).
Proof.
  intros H. destruct (send_command_fault command w ch e H) as (d & Hd & Hn).
  rewrite Hd. split; [reflexivity|].
  split; [apply failure_message_identifies|].
  exists d. split; [reflexivity | exact Hn].
Qed.

Lemma send_command_connection_failure_witness :
  first_fault (net world_results_refused) = Some (Results, connection_refused)
  /\ fst (send_command ("getresultimage" ++ CRLF) world_results_refused)
     = Raise (mk_exn ConnectionError
         "Failed to receive data from 192.168.1.200:25250. Error: [Errno 111] Connection refused").
Proof.
  assert (H : first_fault (net world_results_refused)
              = Some (Results, connection_refused)) by by_evaluation.
  split; [exact H|].
  destruct (send_command_connection_failure ("getresultimage" ++ CRLF)
              world_results_refused Results connection_refused H)
    as (H1 & _).
  rewrite H1. by_evaluation.
Defined.

(** C5, as the spec states it, fails for a reset: the results peer accepts the
    connection and resets it at the first read; send_command raises the
    [ConnectionResetError] as it came, and its message names neither the host
    nor the port. *)
Lemma reset_is_not_wrapped :
  first_fault (net world_results_reset) = Some (Results, connection_reset)
  /\ fst (send_command ("getresultimage" ++ CRLF) world_results_reset)
     = Raise (mk_exn ConnectionResetError "[Errno 104] Connection reset by peer")
  /\ str_contains (host (self world_results_reset))
       "[Errno 104] Connection reset by peer" = false
  /\ str_contains (str_of_int (results_port (self world_results_reset)))
       "[Errno 104] Connection reset by peer" = false.
Proof. repeat split; by_evaluation. Qed.

(** ** trigger *)

Lemma bytes_eqb_eq x : forall y, bytes_eqb x y = true -> x = y.
Proof.
  induction x as [|c x IH]; intros [|d y] H; simpl in H;
    try discriminate; [reflexivity|].
  apply andb_true_iff in H as [Hc Hx].
  apply Byte.byte_dec_bl in Hc. subst d. f_equal. apply IH, Hx.
Qed.

Lemma _send_to_socket_send_fault h p data e rcv rest w :
  net w = Accepted (Some e) rcv :: rest ->
  exists r,
    _send_to_socket h p data w
    = (Raise r,
       set_net rest (add_events [EvConnect h p; EvSendAll data; EvClose] w)).
Proof.
  intros Hn. unfold _send_to_socket, try_except, with_connection.
  rewrite (bind_return _ _ _ _ _ (create_connection_accepted h p _ _ _ w Hn)).
  unfold finally, sendall. cbn [sock_send_fault]. unfold bind at 1.
  cbn [emit raise select_handler].
  destruct (matches [TimeoutError; ConnectionRefusedError] e);
    eexists; unfold raise, set_net, add_events, add_event; simpl;
    rewrite <- !app_assoc; reflexivity.
Qed.

Lemma _receive_from_socket_sends_nothing h p w :
  emits not_sendall w (snd (_receive_from_socket h p w)).
Proof.
  apply (respects__receive_from_socket (emits not_sendall) not_sendall
           (emits_refl _) (emits_trans _) (emits_event _) (emits_net _)).
  repeat split; auto.
Qed.

(** C7. Whatever the state of the client and of the world, a call to trigger
    whose control connection is established hands exactly the bytes
    [TRIGGER\r\n] to the control channel, once, and hands nothing else to any
    socket; the bytes that send_command returns are dropped: trigger returns
    [None]. *)
Theorem trigger_transmits_literal
    (w : World) (sf : option exn) (rcv : list RecvStep)
    (rest : list ConnScript) :
  net w = Accepted sf rcv :: rest ->
  (exists tail,
     trace (snd (trigger w))
     = trace w
       ++ [TRIGGERING;
           EvLog INFO "Sending command: TRIGGER";
           EvConnect (host (self w)) (control_port (self w));
           EvSendAll TRIGGER_BYTES;
           EvClose]
       ++ tail
     /\ sent tail = [])
  /\ (forall response w',
        send_command ("TRIGGER" ++ CRLF) (add_event TRIGGERING w)
        = (Return response, w') ->
        trigger w = (Return tt, w')).
Proof.
  intros Hn. split.
  - unfold trigger, send_command, logger_info.
    unfold bind at 1. cbn [emit].
    unfold bind at 1.
    unfold bind at 1. cbn [emit]. unfold bind at 1. cbn [get].
    change (strip ("TRIGGER" ++ CRLF)) with "TRIGGER".
    change (encode_utf8 ("TRIGGER" ++ CRLF)) with TRIGGER_BYTES.
    fold TRIGGERING.
    set (w0 := add_event (EvLog INFO "Sending command: TRIGGER")
                 (add_event TRIGGERING w)).
    change (self w0) with (self w).
    assert (Hn0 : net w0 = Accepted sf rcv :: rest) by exact Hn.
    destruct sf as [e|].
    + destruct (_send_to_socket_send_fault (host (self w))
                  (control_port (self w)) TRIGGER_BYTES e rcv rest w0 Hn0)
        as (r & Hr).
      rewrite (bind_raise _ _ _ _ _ Hr). exists []. split; [|reflexivity].
      unfold w0, add_event; simpl. rewrite <- !app_assoc. reflexivity.
    + erewrite bind_return; [|eapply _send_to_socket_ok; exact Hn0].
      unfold bind at 1. cbn [get].
      match goal with |- context [_receive_from_socket ?h ?p ?w1] =>
        destruct (_receive_from_socket_sends_nothing h p w1) as (d & Hd & Hs);
        destruct (_receive_from_socket h p w1) as [[response|e] w2] end;
        simpl in Hd |- *; exists d; (split; [|apply sent_none, Hs]);
        rewrite Hd; unfold w0, add_event; simpl;
        rewrite <- !app_assoc; reflexivity.
  - intros response w' Hs. unfold trigger, logger_info.
    unfold bind at 1. cbn [emit]. fold TRIGGERING.
    rewrite (bind_return _ _ _ _ _ Hs). reflexivity.
Qed.

Lemma trigger_transmits_literal_witness :
  net world_listening = [quiet; serving [b "OK"]]
  /\ sent (trace (snd (trigger world_listening))) = [TRIGGER_BYTES]
  /\ trigger world_listening
     = (Return tt,
        snd (send_command ("TRIGGER" ++ CRLF)
               (add_event TRIGGERING world_listening))).
Proof.
  assert (Hn : net world_listening
               = Accepted None [Chunk []] :: [serving [b "OK"]])
    by reflexivity.
  destruct (trigger_transmits_literal world_listening _ _ _ Hn)
    as ((tail & Ht & Hs) & Hd).
  split; [reflexivity|]. split.
  - rewrite Ht, !sent_app, Hs. reflexivity.
  - apply (Hd (b "OK")).
    apply (returns_with (send_command ("TRIGGER" ++ CRLF))). by_evaluation.
Defined.

Lemma trigger_sends_nothing_else w :
  exists d,
    trace (snd (trigger w)) = trace w ++ d
    /\ forall data, In data (sent d) -> data = TRIGGER_BYTES.
Proof.
  destruct (respects_trigger (emits only_trigger_literal) only_trigger_literal
              (emits_refl _) (emits_trans _) (emits_event _) (emits_net _)
              eq_refl eq_refl ltac:(repeat split; auto) w) as (d & Hd & Hp).
  exists d. split; [exact Hd|]. clear Hd.
  induction d as [|e d IH]; simpl in *; [contradiction|].
  apply andb_true_iff in Hp as [He Hp].
  destruct e; simpl in *; auto.
  intros payload [<-|Hin]; [apply bytes_eqb_eq, He | auto].
Qed.

(** The control-channel block of [src/trigger.py] hands the same bytes to the
    same kind of connection. *)
Lemma trigger_py_sends_the_literal rcv rest w :
  net w = Accepted None rcv :: rest ->
  trigger_py_control_block w
  = (Return tt,
     set_net rest
       (add_events
          [EvConnect HOST CONTROL_PORT;
           EvSendAll TRIGGER_BYTES;
           EvPrint ("Message sent: TRIGGER" ++ CRLF);
           EvClose] w)).
Proof.
  intros Hn. unfold trigger_py_control_block, finally, connect.
  rewrite (bind_return _ _ _ _ _
             (create_connection_accepted HOST CONTROL_PORT _ _ _ w Hn)).
  unfold sendall, print, bind, emit; simpl.
  unfold set_net, add_events, add_event; simpl.
  rewrite <- !app_assoc. reflexivity.
Qed.

(** ** main: the two flags together *)

(** Every call of acquire_image shows in the trace: its first step is the
    log line. *)
Lemma acquire_image_is_visible w :
  exists d, trace (snd (acquire_image w)) = trace w ++ ACQUIRING :: d.
Proof.
  pose proof (respects_acquire_image (emits any_event) any_event
                (emits_refl _) (emits_trans _) (emits_event _) (emits_net _))
    as Hall.
  unfold acquire_image, logger_info. unfold bind at 1. cbn [emit].
  fold ACQUIRING.
  match goal with |- context [snd (?rest (add_event ACQUIRING w))] =>
    assert (Hr : emits any_event (add_event ACQUIRING w)
                   (snd (rest (add_event ACQUIRING w)))) end.
  { apply (respects_bind (emits any_event) (emits_trans _)).
    - apply (respects_trigger (emits any_event) any_event
               (emits_refl _) (emits_trans _) (emits_event _) (emits_net _));
        repeat split; auto.
    - intros _.
      apply (respects_bind (emits any_event) (emits_trans _)).
      + apply (respects_send_command (emits any_event) any_event
               (emits_refl _) (emits_trans _) (emits_event _) (emits_net _));
          repeat split; auto.
      + intros response. destruct (bytes_contains MARKER response).
        * apply (respects__process_image_data (emits any_event) any_event
                   (emits_refl _) (emits_trans _) (emits_event _)).
          -- intros f w'. exists []. simpl. rewrite app_nil_r. auto.
          -- reflexivity.
        * apply (respects_emit (emits any_event) any_event (emits_event _)).
          reflexivity. }
  destruct Hr as (d & Hd & _). exists d. rewrite Hd. simpl.
  rewrite <- app_assoc. reflexivity.
Qed.

Lemma main_trigger_emits h cport rport acquire w :
  emits not_acquisition w (snd (main (mkArgs h cport rport true acquire) w)).
Proof.
  unfold main. cbn [arg_host arg_control_port arg_results_port arg_trigger].
  apply (respects_try_except (emits not_acquisition)
           (emits_refl _) (emits_trans _)).
  - apply (respects_bind (emits not_acquisition) (emits_trans _)).
    + intros w'. exists []. simpl. rewrite app_nil_r. auto.
    + intros _.
      apply (respects_trigger (emits not_acquisition) not_acquisition
               (emits_refl _) (emits_trans _) (emits_event _) (emits_net _));
        repeat split; auto.
  - repeat constructor; intros e';
      apply (respects_emit (emits not_acquisition) not_acquisition
               (emits_event _)); reflexivity.
Qed.

(** ** The end-to-end scenario of the specification *)

(** The response of the scenario is [HEADER/9j/] followed by the base64 text
    of a twelve-byte image.  That text itself starts with [/9j/], so the
    response holds the marker twice, with nothing between the two: the code
    decodes the marker alone and the file holds three bytes. *)
Lemma end_to_end_scenario :
  let jpeg := [xff; xd8; xff; xe0] ++ b "JPEGDATA" in
  let response := b "HEADER/9j/" ++ b "/9j/4EpQRUdEQVRB" in
  let w := world0 [quiet; quiet; quiet; serving [response]] in
  b64decode (b "/9j/4EpQRUdEQVRB") = Return jpeg
  /\ fst (acquire_image w) = Return tt
  /\ read_file "./images/output_image_20240102_030405.jpg"
       (files (snd (acquire_image w))) = Some [xff; xd8; xff].
Proof. repeat split; by_evaluation. Qed.

(** A camera that sends a header and then the base64 text of the image, the
    marker being the start of that text: the file holds the twelve bytes. *)
Lemma header_then_image :
  let jpeg := [xff; xd8; xff; xe0] ++ b "JPEGDATA" in
  let w := world0 [quiet; quiet; quiet; serving [b "HEADER/9j/4EpQRUdEQVRB"]] in
  fst (acquire_image w) = Return tt
  /\ read_file "./images/output_image_20240102_030405.jpg"
       (files (snd (acquire_image w))) = Some jpeg.
Proof. repeat split; by_evaluation. Qed.

(** * Further properties *)

(** ** Every socket is closed *)

Lemma count_app P t u : count P (t ++ u) = count P t + count P u.
Proof. unfold count. rewrite filter_app, length_app. reflexivity. Qed.

Lemma established_app u v : established (u ++ v) = established u + established v.
Proof. unfold established. rewrite filter_app, length_app. reflexivity. Qed.

Lemma sockets_closed_refl w : sockets_closed w w.
Proof. exists [], []. simpl. rewrite app_nil_r. auto. Qed.

Lemma sockets_closed_trans w1 w2 w3 :
  sockets_closed w1 w2 -> sockets_closed w2 w3 -> sockets_closed w1 w3.
Proof.
  intros (u1 & d1 & N1 & T1 & C1) (u2 & d2 & N2 & T2 & C2).
  exists (u1 ++ u2), (d1 ++ d2).
  rewrite N1, N2, T2, T1, !app_assoc, count_app, established_app, C1, C2.
  auto.
Qed.

Lemma sockets_closed_event e w :
  not_close e = true -> sockets_closed w (add_event e w).
Proof.
  intros H. exists [], [e]. simpl. repeat split.
  unfold count; simpl. destruct e; simpl in *; auto; discriminate.
Qed.

Lemma inside_connection_refl w : inside_connection w w.
Proof. split; [reflexivity|]. exists []. rewrite app_nil_r. auto. Qed.

Lemma inside_connection_trans w1 w2 w3 :
  inside_connection w1 w2 -> inside_connection w2 w3 ->
  inside_connection w1 w3.
Proof.
  intros (N1 & d1 & T1 & C1) (N2 & d2 & T2 & C2).
  split; [congruence|]. exists (d1 ++ d2).
  rewrite T2, T1, app_assoc, count_app, C1, C2. auto.
Qed.

Lemma inside_connection_event e w :
  not_close e = true -> inside_connection w (add_event e w).
Proof.
  intros H. split; [reflexivity|]. exists [e]. split; [reflexivity|].
  unfold count; simpl. destruct e; simpl in *; auto; discriminate.
Qed.

(** A [with] block closes the connection it opened, on every exit path of a
    body that only uses its socket. *)
Lemma with_connection_closes {A} h p (body : Socket -> Py A) :
  (forall sock, respects inside_connection (body sock)) ->
  respects sockets_closed (with_connection h p body).
Proof.
  intros Hb w. unfold with_connection.
  destruct (net w) as [|[e|sf rcv] n'] eqn:Hn.
  - rewrite (bind_raise _ _ _ _ _ (create_connection_nobody h p w Hn)).
    exists [], [EvConnect h p]. simpl. auto.
  - rewrite (bind_raise _ _ _ _ _ (create_connection_unreachable h p _ _ w Hn)).
    exists [Unreachable e], [EvConnect h p]. simpl. auto.
  - rewrite (bind_return _ _ _ _ _ (create_connection_accepted h p _ _ _ w Hn)).
    unfold finally.
    destruct (Hb (mkSocket sf rcv)
                (set_net n' (add_events [EvConnect h p] w)))
      as (N & d & T & C).
    destruct (body (mkSocket sf rcv)
                (set_net n' (add_events [EvConnect h p] w))) as [r w2].
    simpl in *. exists [Accepted sf rcv], (EvConnect h p :: d ++ [EvClose]).
    simpl. rewrite N, T. split; [exact Hn|]. split.
    + rewrite <- !app_assoc. reflexivity.
    + change (EvConnect h p :: d ++ [EvClose])
        with ([EvConnect h p] ++ d ++ [EvClose]).
      rewrite !count_app, C. reflexivity.
Qed.

Lemma _send_to_socket_closes h p data :
  respects sockets_closed (_send_to_socket h p data).
Proof.
  unfold _send_to_socket.
  apply (respects_try_except sockets_closed sockets_closed_refl
           sockets_closed_trans).
  - apply with_connection_closes. intros sock.
    apply (respects_sendall inside_connection not_close inside_connection_refl
             inside_connection_trans inside_connection_event). reflexivity.
  - repeat constructor. intros e.
    apply (respects_raise sockets_closed sockets_closed_refl).
Qed.

Lemma _receive_from_socket_closes h p :
  respects sockets_closed (_receive_from_socket h p).
Proof.
  unfold _receive_from_socket.
  apply (respects_try_except sockets_closed sockets_closed_refl
           sockets_closed_trans).
  - apply with_connection_closes. intros sock.
    apply (respects_recv_loop inside_connection not_close inside_connection_refl
             inside_connection_trans inside_connection_event). reflexivity.
  - repeat constructor. intros e.
    apply (respects_raise sockets_closed sockets_closed_refl).
Qed.

Lemma send_command_closes command :
  respects sockets_closed (send_command command).
Proof.
  unfold send_command, logger_info.
  apply (respects_bind sockets_closed sockets_closed_trans);
    [intros w; apply sockets_closed_event; reflexivity | intros _].
  apply (respects_bind sockets_closed sockets_closed_trans);
    [apply (respects_get sockets_closed sockets_closed_refl) | intros me].
  apply (respects_bind sockets_closed sockets_closed_trans);
    [apply _send_to_socket_closes | intros _].
  apply (respects_bind sockets_closed sockets_closed_trans);
    [apply (respects_get sockets_closed sockets_closed_refl) | intros me'].
  apply _receive_from_socket_closes.
Qed.

Lemma trigger_closes : respects sockets_closed trigger.
Proof.
  unfold trigger, logger_info.
  apply (respects_bind sockets_closed sockets_closed_trans);
    [intros w; apply sockets_closed_event; reflexivity | intros _].
  apply (respects_bind sockets_closed sockets_closed_trans);
    [apply send_command_closes | intros _].
  apply (respects_ret sockets_closed sockets_closed_refl).
Qed.

(** ** The image step, case by case *)

Lemma _process_image_data_index_error response w :
  nth_error (split_scan MARKER response 0 []) 1 = None ->
  _process_image_data response w
  = (Return tt, add_event (PROCESSING_ERROR INDEX_ERROR) w).
Proof.
  intros Hp. unfold _process_image_data, try_except.
  rewrite bytes_split_MARKER. unfold bind at 1. cbn [lift].
  unfold getitem. rewrite Hp. unfold bind at 1. cbn [lift select_handler].
  rewrite matches_Exception. reflexivity.
Qed.

Lemma save_image_data_fault_other image_data path fault w :
  disk w path = Some fault ->
  issubclass (exn_class (fault_exn fault)) OSError = false ->
  save_image_data image_data path w
  = (Raise (fault_exn fault),
     after_fault path fault (add_event (EvOpen path) w)).
Proof.
  intros H Hc. unfold save_image_data, try_except, write_binary_file.
  unfold bind, emit, get, modify; simpl. rewrite H.
  destruct fault as [e|e]; simpl in *; unfold matches; simpl;
    rewrite Hc; reflexivity.
Qed.

(** Whatever the disk does, a failed save ends in one logged error. *)
Lemma _process_image_data_any_fault response base64_data image_data fault w :
  nth_error (split_scan MARKER response 0 []) 1 = Some base64_data ->
  b64decode (MARKER ++ base64_data) = Return image_data ->
  disk w (image_path (clock w)) = Some fault ->
  exists e,
    _process_image_data response w
    = (Return tt,
       add_event (PROCESSING_ERROR e)
         (after_fault (image_path (clock w)) fault
            (add_event (EvOpen (image_path (clock w))) w))).
Proof.
  intros Hp Hd Hk.
  destruct (issubclass (exn_class (fault_exn fault)) OSError) eqn:Hc.
  - eexists. apply (_process_image_data_save_fault _ _ _ _ _ Hp Hd Hk Hc).
  - exists (fault_exn fault). unfold _process_image_data, try_except.
    rewrite bytes_split_MARKER. unfold bind at 1. cbn [lift].
    unfold getitem. rewrite Hp. unfold bind at 1. cbn [lift].
    rewrite Hd. unfold bind at 1. cbn [lift].
    unfold bind at 1, now_strftime. cbn [get].
    change ("./images/" ++ "output_image_" ++ clock w ++ ".jpg")%string
      with (image_path (clock w)).
    erewrite bind_raise;
      [|apply save_image_data_fault_other; [exact Hk | exact Hc]].
    cbn [select_handler]. rewrite matches_Exception. reflexivity.
Qed.

(** The image step leaves the network and the client alone, and makes at most
    one open call and no write call without an open. *)
Lemma _process_image_data_effects response w :
  net (snd (_process_image_data response w)) = net w
  /\ self (snd (_process_image_data response w)) = self w
  /\ exists d,
       trace (snd (_process_image_data response w)) = trace w ++ d
       /\ count is_network_event d = 0
       /\ count is_write d <= count is_open d
       /\ count is_open d <= 1.
Proof.
  destruct (nth_error (split_scan MARKER response 0 []) 1)
    as [base64_data|] eqn:Hp.
  2: { rewrite (_process_image_data_index_error response w Hp).
       repeat split. eexists. split; [reflexivity|]. cbv. auto. }
  destruct (b64decode (MARKER ++ base64_data)) as [image_data|e] eqn:Hd.
  2: { rewrite (_process_image_data_decode_error response _ e w Hp Hd).
       repeat split. eexists. split; [reflexivity|]. cbv. auto. }
  destruct (disk w (image_path (clock w))) as [fault|] eqn:Hk.
  - destruct (_process_image_data_any_fault response _ _ fault w Hp Hd Hk)
      as (e & He).
    rewrite He. destruct fault; simpl; repeat split;
      exists [EvOpen (image_path (clock w)); PROCESSING_ERROR e];
      (split; [rewrite <- app_assoc; reflexivity | cbv; auto]).
  - rewrite (_process_image_data_saved response _ image_data w Hp Hd Hk).
    repeat split. eexists. split; [reflexivity|]. cbv. auto.
Qed.

(** ** A round trip in full *)

Lemma recv_loop_run : forall rcv acc w,
  recv_loop rcv acc w
  = (match recv_fault rcv with
     | Some e => Raise e
     | None => Return (acc ++ received rcv)
     end,
     add_events (repeat (EvRecv 4096) (recv_calls rcv)) w).
Proof.
  induction rcv as [|[chunk|e] rcv IH]; intros acc w.
  - reflexivity.
  - destruct chunk as [|x chunk].
    + simpl. rewrite app_nil_r. reflexivity.
    + cbn [recv_loop recv_fault received recv_calls repeat].
      unfold bind at 1. cbn [emit]. rewrite IH.
      rewrite <- app_assoc.
      unfold add_events, add_event; simpl. rewrite <- app_assoc. reflexivity.
  - reflexivity.
Qed.

Lemma _send_to_socket_run h p data w :
  _send_to_socket h p data w
  = (match control_fault (net w) with
     | Some e => Raise (wrap_with "Failed to send data to " h p e)
     | None => Return tt
     end,
     set_net (tl (net w)) (add_events (send_events h p data (net w)) w)).
Proof.
  unfold _send_to_socket, try_except, with_connection, send_events, wrap_with.
  destruct (net w) as [|[e|[e|] rcv] rest] eqn:Hn.
  - rewrite (bind_raise _ _ _ _ _ (create_connection_nobody h p w Hn)).
    cbn [select_handler control_fault tl]. fold WRAPPED.
    destruct (matches WRAPPED timed_out) eqn:E; [|discriminate].
    unfold raise, set_net, add_events; simpl. rewrite Hn. reflexivity.
  - rewrite (bind_raise _ _ _ _ _ (create_connection_unreachable h p _ _ w Hn)).
    cbn [select_handler control_fault tl]. fold WRAPPED.
    destruct (matches WRAPPED e); reflexivity.
  - rewrite (bind_return _ _ _ _ _ (create_connection_accepted h p _ _ _ w Hn)).
    unfold finally, sendall. cbn [sock_send_fault]. unfold bind at 1.
    cbn [emit raise select_handler control_fault tl]. fold WRAPPED.
    destruct (matches WRAPPED e); unfold raise, set_net, add_events, add_event;
      simpl; rewrite <- !app_assoc; reflexivity.
  - rewrite (bind_return _ _ _ _ _ (create_connection_accepted h p _ _ _ w Hn)).
    unfold finally, sendall, bind, emit, ret; simpl.
    unfold set_net, add_events, add_event; simpl.
    rewrite <- !app_assoc. reflexivity.
Qed.

Lemma _receive_from_socket_run h p w :
  _receive_from_socket h p w
  = (match results_fault (net w) with
     | Some e => Raise (wrap_with "Failed to receive data from " h p e)
     | None => Return (received (peer_script (net w)))
     end,
     set_net (tl (net w)) (add_events (receive_events h p (net w)) w)).
Proof.
  unfold _receive_from_socket, try_except, with_connection, receive_events,
    wrap_with, peer_script.
  destruct (net w) as [|[e|sf rcv] rest] eqn:Hn.
  - rewrite (bind_raise _ _ _ _ _ (create_connection_nobody h p w Hn)).
    cbn [select_handler results_fault tl]. fold WRAPPED.
    destruct (matches WRAPPED timed_out) eqn:E; [|discriminate].
    unfold raise, set_net, add_events; simpl. rewrite Hn. reflexivity.
  - rewrite (bind_raise _ _ _ _ _ (create_connection_unreachable h p _ _ w Hn)).
    cbn [select_handler results_fault tl]. fold WRAPPED.
    destruct (matches WRAPPED e); reflexivity.
  - rewrite (bind_return _ _ _ _ _ (create_connection_accepted h p _ _ _ w Hn)).
    unfold finally. cbn [sock_rcv results_fault tl]. rewrite recv_loop_run.
    destruct (recv_fault rcv) as [e|].
    + cbn [select_handler]. fold WRAPPED.
      destruct (matches WRAPPED e); unfold raise, set_net, add_events, add_event;
        simpl; rewrite <- !app_assoc; reflexivity.
    + unfold set_net, add_events, add_event; simpl.
      rewrite <- !app_assoc. reflexivity.
Qed.

Lemma send_command_run command w :
  send_command command w
  = (send_outcome (self w) (net w),
     set_net (net_after (net w))
       (add_events (round_trip_events (self w) command (net w)) w)).
Proof.
  unfold send_command, logger_info.
  unfold bind at 1. cbn [emit]. unfold bind at 1. cbn [get].
  unfold bind at 1. rewrite _send_to_socket_run.
  set (w0 := add_event (EvLog INFO ("Sending command: " ++ strip command)) w).
  change (self w0) with (self w). change (net w0) with (net w).
  unfold send_outcome, first_fault, net_after, round_trip_events.
  destruct (control_fault (net w)) as [e|] eqn:Hc.
  - unfold w0, set_net, add_events, add_event; simpl.
    rewrite app_nil_r, <- app_assoc. reflexivity.
  - unfold bind at 1. cbn [get]. rewrite _receive_from_socket_run.
    cbn [self net set_net add_events].
    unfold results_script.
    destruct (results_fault (tl (net w))) as [e|]; cbn [option_map];
      unfold w0, set_net, add_events, add_event; simpl;
      rewrite <- !app_assoc; reflexivity.
Qed.

Lemma acquire_image_cases w :
  acquire_image w
  = match trigger (add_event ACQUIRING w) with
    | (Raise e, w1) => (Raise e, w1)
    | (Return _, w1) =>
        match send_command ("getresultimage" ++ CRLF) w1 with
        | (Raise e, w2) => (Raise e, w2)
        | (Return response, w2) =>
            if bytes_contains MARKER response
            then _process_image_data response w2
            else (Return tt, add_event NO_IMAGE w2)
        end
    end.
Proof.
  unfold acquire_image, logger_info. unfold bind at 1. cbn [emit].
  fold ACQUIRING. unfold bind at 1.
  destruct (trigger (add_event ACQUIRING w)) as [[[]|e] w1]; [|reflexivity].
  unfold bind at 1.
  destruct (send_command ("getresultimage" ++ CRLF) w1) as [[response|e] w2];
    [|reflexivity].
  destruct (bytes_contains MARKER response); reflexivity.
Qed.

Lemma trigger_run w :
  trigger w
  = (match send_outcome (self w) (net w) with
     | Return _ => Return tt
     | Raise e => Raise e
     end,
     set_net (net_after (net w))
       (add_events
          (TRIGGERING :: round_trip_events (self w) ("TRIGGER" ++ CRLF) (net w))
          w)).
Proof.
  unfold trigger, logger_info. unfold bind at 1. cbn [emit]. fold TRIGGERING.
  unfold bind at 1. rewrite send_command_run.
  change (self (add_event TRIGGERING w)) with (self w).
  change (net (add_event TRIGGERING w)) with (net w).
  destruct (send_outcome (self w) (net w));
    unfold ret, set_net, add_events, add_event; simpl;
    rewrite <- app_assoc; reflexivity.
Qed.

(** *** What a round trip sends *)

Lemma sent_receive_events h p n : sent (receive_events h p n) = [].
Proof.
  unfold receive_events. destruct n as [|[e|sf rcv] n]; simpl; auto.
  rewrite sent_app. simpl. rewrite app_nil_r.
  induction (recv_calls rcv); simpl; auto.
Qed.

Lemma sent_round_trip cam command n :
  sent (round_trip_events cam command n)
  = match n with
    | Accepted _ _ :: _ => [encode_utf8 command]
    | _ => []
    end.
Proof.
  unfold round_trip_events, send_events. cbn [sent]. rewrite sent_app.
  assert (H : sent match control_fault n with
                   | Some _ => []
                   | None => receive_events (host cam) (results_port cam) (tl n)
                   end = []).
  { destruct (control_fault n); [reflexivity | apply sent_receive_events]. }
  rewrite H, app_nil_r. destruct n as [|[e|sf rcv] n]; reflexivity.
Qed.

Lemma send_outcome_return cam n r :
  send_outcome cam n = Return r ->
  exists rcv rest, n = Accepted None rcv :: rest.
Proof.
  unfold send_outcome, first_fault.
  destruct n as [|[e|[e|] rcv] rest]; simpl; try discriminate.
  intros _. eauto.
Qed.

Lemma no_network_event_sent d : count is_network_event d = 0 -> sent d = [].
Proof.
  unfold count. induction d as [|e d IH]; simpl; [reflexivity|].
  destruct e; simpl; intros H; try discriminate; auto.
Qed.

Lemma count_le P Q d :
  (forall e, P e = true -> Q e = true) -> count P d <= count Q d.
Proof.
  intros H. unfold count. induction d as [|e d IH]; simpl; [lia|].
  destruct (P e) eqn:E.
  - rewrite (H e E). simpl. lia.
  - destruct (Q e); simpl; lia.
Qed.

Lemma no_file_event_count d :
  forallb not_file_event d = true ->
  count is_open d = 0 /\ count is_write d = 0.
Proof.
  unfold count. induction d as [|e d IH]; simpl; [auto|].
  intros H. apply andb_true_iff in H as [He Hd].
  destruct (IH Hd) as [Ho Hw].
  destruct e; simpl in *; try discriminate; auto.
Qed.

(** ** Further properties of the round trip *)

(** X1. The outcome of send_command is decided by the two peers alone: it
    returns exactly when no connect, send or receive step fails, and then
    returns the bytes received before the close, whatever the command; when a
    step fails it raises that step's error (wrapped for a timeout or a
    refusal).  The call uses up the peers it contacted and leaves the client's
    attributes and the files as they were. *)
Theorem send_command_outcome (command : string) (w : World) :
  fst (send_command command w) = send_outcome (self w) (net w)
  /\ ((exists response, fst (send_command command w) = Return response)
      <-> first_fault (net w) = None)
  /\ net (snd (send_command command w)) = net_after (net w)
  /\ self (snd (send_command command w)) = self w
  /\ files (snd (send_command command w)) = files w.
Proof.
  rewrite send_command_run. cbn [fst snd].
  split; [reflexivity|]. split; [|repeat split].
  unfold send_outcome. destruct (first_fault (net w)) as [[ch e]|].
  - split; [intros [response H]; discriminate | discriminate].
  - split; [reflexivity | intros _; eauto].
Qed.

Lemma acquire_image_closes : respects sockets_closed acquire_image.
Proof.
  intros w. rewrite acquire_image_cases.
  assert (H0 : sockets_closed w (add_event ACQUIRING w))
    by (apply sockets_closed_event; reflexivity).
  pose proof (trigger_closes (add_event ACQUIRING w)) as H1.
  destruct (trigger (add_event ACQUIRING w)) as [[[]|e] w1]; simpl in H1;
    [|exact (sockets_closed_trans _ _ _ H0 H1)].
  pose proof (send_command_closes ("getresultimage" ++ CRLF) w1) as H2.
  destruct (send_command ("getresultimage" ++ CRLF) w1) as [[response|e] w2];
    simpl in H2;
    [|exact (sockets_closed_trans _ _ _ H0 (sockets_closed_trans _ _ _ H1 H2))].
  apply (sockets_closed_trans _ _ _ H0), (sockets_closed_trans _ _ _ H1),
    (sockets_closed_trans _ _ _ H2).
  destruct (bytes_contains MARKER response).
  - destruct (_process_image_data_effects response w2)
      as (N & _ & d & T & C & _).
    exists [], d. rewrite N, T. repeat split.
    pose proof (count_le is_close is_network_event d) as Hle.
    assert (count is_close d <= count is_network_event d).
    { apply Hle. intros e; destruct e; simpl; auto. }
    change (established []) with 0. lia.
  - apply sockets_closed_event. reflexivity.
Qed.

(** X2. Every public operation closes every connection it has established,
    on every exit path: whatever the peers and the disk do, the trace grows by
    exactly as many [close] calls as connections were accepted. *)
Theorem operations_close_every_socket (op : Operation) (w : World) :
  exists used d,
    net w = used ++ net (perform op w)
    /\ trace (perform op w) = trace w ++ d
    /\ count is_close d = established used.
Proof.
  destruct op as [command| |]; simpl.
  - apply send_command_closes.
  - apply trigger_closes.
  - apply acquire_image_closes.
Qed.

(** X4. acquire_image raises exactly when one of its two round trips raises,
    and then raises that exception: the trigger's, or, the trigger having
    returned, the query's.  Nothing that happens behind the query (a missing
    marker, a decode failure, a file failure) makes it raise. *)
Theorem acquire_image_raises_iff (w : World) (e : exn) :
  fst (acquire_image w) = Raise e
  <-> fst (trigger (add_event ACQUIRING w)) = Raise e
      \/ (fst (trigger (add_event ACQUIRING w)) = Return tt
          /\ fst (send_command ("getresultimage" ++ CRLF) (after_trigger w))
             = Raise e).
Proof.
  rewrite acquire_image_cases. unfold after_trigger.
  destruct (trigger (add_event ACQUIRING w)) as [[[]|e1] w1]; cbn [fst snd].
  - destruct (send_command ("getresultimage" ++ CRLF) w1)
      as [[response|e2] w2]; cbn [fst snd].
    + destruct (bytes_contains MARKER response).
      * rewrite _process_image_data_returns.
        split; [discriminate | intros [H|[_ H]]; discriminate].
      * split; [discriminate | intros [H|[_ H]]; discriminate].
    + split; [intros H; right; split; [reflexivity | congruence]|].
      intros [H|[_ H]]; [discriminate | congruence].
  - split; [intros H; left; exact H|].
    intros [H|[H _]]; [exact H | discriminate].
Qed.

(** ** main *)

Lemma main_run args w :
  main args w
  = match selected_operation args (snd (__init__ (arg_host args)
                                          (arg_control_port args)
                                          (arg_results_port args) w)) with
    | (Return _, w') => (Return tt, w')
    | (Raise e, w') => (Return tt, add_event (EvPrint (failure_report e)) w')
    end.
Proof.
  unfold main, try_except.
  change (__init__ (arg_host args) (arg_control_port args)
            (arg_results_port args) ;;
          (if arg_trigger args then trigger
           else if arg_acquire args then acquire_image
           else print "Please specify either --trigger or --acquire"))
    with (__init__ (arg_host args) (arg_control_port args)
            (arg_results_port args) ;; selected_operation args).
  unfold bind at 1. cbn [__init__ modify snd].
  destruct (selected_operation args _) as [[[]|e] w']; [reflexivity|].
  cbn [select_handler]. unfold failure_report, matches at 1. cbn [existsb].
  rewrite orb_false_r.
  destruct (issubclass (exn_class e) ConnectionError); [reflexivity|].
  rewrite matches_Exception. reflexivity.
Qed.

(** X7. Once the arguments are parsed, main never raises: whatever the two
    flags, the network and the disk do, its [try] block with the two [except]
    clauses returns normally. *)
Theorem main_never_raises (args : Args) (w : World) :
  fst (main args w) = Return tt.
Proof.
  rewrite main_run.
  destruct (selected_operation args _) as [[[]|e] w']; reflexivity.
Qed.

(** X8. When the selected operation raises, main prints one line and returns:
    [Connection error: <message>] for a [ConnectionError] (a
    [ConnectionResetError] that passed unwrapped included), [An unexpected
    error occurred: <message>] for anything else. *)
Theorem main_reports_failure (args : Args) (w w' : World) (e : exn) :
  selected_operation args
    (snd (__init__ (arg_host args) (arg_control_port args)
            (arg_results_port args) w))
  = (Raise e, w') ->
  main args w = (Return tt, add_event (EvPrint (failure_report e)) w').
Proof. intros H. rewrite main_run, H. reflexivity. Qed.

Lemma raises_with {A} (c : Py A) (w : World) (e : exn) :
  fst (c w) = Raise e -> c w = (Raise e, snd (c w)).
Proof. destruct (c w) as [r w']; simpl; intros ->; reflexivity. Qed.

Lemma main_reports_failure_witness :
  fst (main args_acquire world_refusing_results) = Return tt
  /\ last (trace (snd (main args_acquire world_refusing_results))) EvClose
     = EvPrint "Connection error: Failed to receive data from cam.local:25250. Error: [Errno 111] Connection refused".
Proof.
  assert (H : selected_operation args_acquire
                (snd (__init__ (arg_host args_acquire)
                        (arg_control_port args_acquire)
                        (arg_results_port args_acquire)
                        world_refusing_results))
              = (Raise (mk_exn ConnectionError
                   "Failed to receive data from cam.local:25250. Error: [Errno 111] Connection refused"),
                 snd (selected_operation args_acquire
                        (snd (__init__ (arg_host args_acquire)
                                (arg_control_port args_acquire)
                                (arg_results_port args_acquire)
                                world_refusing_results)))))
    by (apply (raises_with (selected_operation args_acquire)); by_evaluation).
  rewrite (main_reports_failure args_acquire world_refusing_results _ _ H).
  split; [reflexivity | by_evaluation].
Defined.

(** ** Further properties of the image step *)

(** X9. For every response that contains the marker, acquire_image decodes
    the marker followed by the bytes between the first marker and the next
    one behind it (all the bytes behind the first marker when there is no
    other), and saves the result or logs the decoding error. *)
Theorem acquire_image_decodes_between_markers
    (w w1 w2 : World) (response : bytes) (i : nat) :
  trigger (add_event ACQUIRING w) = (Return tt, w1) ->
  send_command ("getresultimage" ++ CRLF) w1 = (Return response, w2) ->
  bytes_find MARKER response = Some i ->
  disk w2 (image_path (clock w2)) = None ->
  acquire_image w
  = (Return tt,
     match b64decode (MARKER ++ second_piece response i) with
     | Return image_data => saved image_data w2
     | Raise e => add_event (PROCESSING_ERROR e) w2
     end).
Proof.
  intros Ht Hs Hf Hk.
  assert (Hm : bytes_contains MARKER response = true).
  { destruct (bytes_contains MARKER response) eqn:E; [reflexivity|].
    apply bytes_find_None in E. congruence. }
  pose proof (split_second_piece response i Hf) as Hp.
  cbv zeta in Hp. fold (second_piece response i) in Hp.
  rewrite (acquire_image_run w w1 w2 response Ht Hs), Hm.
  destruct (b64decode (MARKER ++ second_piece response i))
    as [image_data|e] eqn:Hd.
  - apply (_process_image_data_saved response _ image_data w2 Hp Hd Hk).
  - apply (_process_image_data_decode_error response _ e w2 Hp Hd).
Qed.

Lemma acquire_image_decodes_between_markers_witness :
  second_piece (b "x/9j/AAAA/9j/BBBB") 1 = b "AAAA"
  /\ acquire_image world_two_markers
     = (Return tt, saved six_bytes (after_query world_two_markers)).
Proof.
  assert (Ht : trigger (add_event ACQUIRING world_two_markers)
               = (Return tt, after_trigger world_two_markers))
    by (apply (returns_with trigger); by_evaluation).
  assert (Hs : send_command ("getresultimage" ++ CRLF)
                 (after_trigger world_two_markers)
               = (Return (b "x/9j/AAAA/9j/BBBB"),
                  after_query world_two_markers))
    by (apply (returns_with (send_command ("getresultimage" ++ CRLF)));
        by_evaluation).
  assert (Hf : bytes_find MARKER (b "x/9j/AAAA/9j/BBBB") = Some 1)
    by by_evaluation.
  assert (Hk : disk (after_query world_two_markers)
                 (image_path (clock (after_query world_two_markers))) = None)
    by by_evaluation.
  assert (Hd : b64decode (MARKER ++ second_piece (b "x/9j/AAAA/9j/BBBB") 1)
               = Return six_bytes) by by_evaluation.
  split; [by_evaluation|].
  rewrite (acquire_image_decodes_between_markers world_two_markers _ _ _ 1
             Ht Hs Hf Hk), Hd.
  reflexivity.
Defined.

(** X10. Called on a response without the marker, [_process_image_data] logs
    the index error of [split(...)[1]] and does nothing else: no file is
    opened, nothing is raised. *)
Theorem image_step_without_marker (response : bytes) (w : World) :
  bytes_contains MARKER response = false ->
  _process_image_data response w
  = (Return tt,
     add_event
       (EvLog ERROR "Error processing image data: list index out of range") w).
Proof.
  intros H. apply _process_image_data_index_error.
  rewrite (split_scan_no_occurrence MARKER response [] H). reflexivity.
Qed.

Lemma image_step_without_marker_witness :
  bytes_contains MARKER (b "no picture yet") = false
  /\ fst (_process_image_data (b "no picture yet") world_no_image) = Return tt
  /\ files (snd (_process_image_data (b "no picture yet") world_no_image)) = [].
Proof.
  assert (H : bytes_contains MARKER (b "no picture yet") = false)
    by by_evaluation.
  split; [exact H|].
  rewrite (image_step_without_marker (b "no picture yet") world_no_image H).
  split; reflexivity.
Defined.

(** X11. After a save that succeeds the file holds exactly the image data,
    whatever it held before, and every other file is as it was. *)
Theorem save_image_data_then_read
    (image_data : bytes) (image_path : string) (w : World) :
  disk w image_path = None ->
  fst (save_image_data image_data image_path w) = Return tt
  /\ read_file image_path (files (snd (save_image_data image_data image_path w)))
     = Some image_data
  /\ forall other,
       other <> image_path ->
       read_file other (files (snd (save_image_data image_data image_path w)))
       = read_file other (files w).
Proof.
  intros H. rewrite (save_image_data_ok image_data image_path w H).
  cbn [fst snd files add_events set_files read_file].
  rewrite String.eqb_refl. repeat split.
  intros other Hne.
  destruct (String.eqb_spec image_path other) as [E|_]; [congruence|].
  reflexivity.
Qed.

Lemma save_image_data_then_read_witness :
  read_file "./images/a.jpg"
    (files (snd (save_image_data six_bytes "./images/a.jpg" world_with_old_file)))
  = Some six_bytes
  /\ read_file "./images/b.jpg"
       (files (snd (save_image_data six_bytes "./images/a.jpg"
                      world_with_old_file)))
     = Some (b "other").
Proof.
  destruct (save_image_data_then_read six_bytes "./images/a.jpg"
              world_with_old_file eq_refl) as (_ & H1 & H2).
  split; [exact H1|].
  rewrite (H2 "./images/b.jpg") by discriminate. reflexivity.
Defined.

(** ** Two triggers in a row *)

Lemma trigger_ok chunks rcv0 sf more rest w :
  Forall (fun c : bytes => c <> []) chunks ->
  net w = Accepted None rcv0
          :: Accepted sf (map Chunk chunks ++ Chunk [] :: more) :: rest ->
  trigger w
  = (Return tt,
     set_net rest (add_events (trigger_events (self w) (List.length chunks)) w)).
Proof.
  intros Hne Hn. unfold trigger, logger_info.
  unfold bind at 1. cbn [emit]. fold TRIGGERING.
  erewrite bind_return;
    [|apply (send_command_ok _ chunks rcv0 sf more rest); [exact Hne | exact Hn]].
  unfold ret, trigger_events, set_net, add_events, add_event; simpl.
  rewrite <- !app_assoc. reflexivity.
Qed.

(** X12. Two triggers in a row are two independent, identical round trips:
    the second one sends the same bytes to the same two ports as the first,
    whatever the first one received, and the client is as it was. *)
Theorem trigger_twice
    (w : World) (chunks1 chunks2 : list bytes) (rcv1 rcv2 : list RecvStep)
    (sf1 sf2 : option exn) (more1 more2 : list RecvStep)
    (rest : list ConnScript) :
  Forall (fun c : bytes => c <> []) chunks1 ->
  Forall (fun c : bytes => c <> []) chunks2 ->
  net w = Accepted None rcv1
          :: Accepted sf1 (map Chunk chunks1 ++ Chunk [] :: more1)
          :: Accepted None rcv2
          :: Accepted sf2 (map Chunk chunks2 ++ Chunk [] :: more2) :: rest ->
  (trigger ;; trigger) w
  = (Return tt,
     set_net rest
       (add_events (trigger_events (self w) (List.length chunks1)
                    ++ trigger_events (self w) (List.length chunks2)) w)).
Proof.
  intros H1 H2 Hn.
  rewrite (bind_return _ _ _ _ _
             (trigger_ok chunks1 rcv1 sf1 more1 _ w H1 Hn)).
  erewrite trigger_ok; [|exact H2|reflexivity].
  unfold set_net, add_events. cbn [self net disk clock files trace].
  rewrite app_assoc. reflexivity.
Qed.

Lemma trigger_twice_witness :
  fst ((trigger ;; trigger) world_two_triggers) = Return tt
  /\ sent (trace (snd ((trigger ;; trigger) world_two_triggers)))
     = [TRIGGER_BYTES; TRIGGER_BYTES]
  /\ connects (trace (snd ((trigger ;; trigger) world_two_triggers)))
     = [(HOST, CONTROL_PORT); (HOST, RESULTS_PORT);
        (HOST, CONTROL_PORT); (HOST, RESULTS_PORT)].
Proof.
  assert (H : (trigger ;; trigger) world_two_triggers
              = (Return tt,
                 set_net []
                   (add_events (trigger_events (self world_two_triggers) 1
                                ++ trigger_events (self world_two_triggers) 2)
                      world_two_triggers))).
  { apply (trigger_twice world_two_triggers [b "OK"] [b "O"; b "K"]
             [Chunk []] [Chunk []] None None [] [] []).
    - repeat constructor; discriminate.
    - repeat constructor; discriminate.
    - reflexivity. }
  rewrite H. repeat split; by_evaluation.
Defined.

(** ** The control-channel block of src/trigger.py *)

(** X13. The script block sends the literal [TRIGGER\r\n] to the default
    control port; an error of the connect or of the send propagates as it is
    (nothing wraps it), [Message sent] is printed only behind a send that
    succeeded, and the socket is closed on every path. *)
Theorem trigger_py_control_block_run (w : World) :
  trigger_py_control_block w
  = (match control_fault (net w) with
     | Some e => Raise e
     | None => Return tt
     end,
     set_net (tl (net w)) (add_events (script_events (net w)) w)).
Proof.
  unfold trigger_py_control_block, finally, connect, script_events.
  destruct (net w) as [|[e|[e|] rcv] rest] eqn:Hn.
  - rewrite (bind_raise _ _ _ _ _
               (create_connection_nobody HOST CONTROL_PORT w Hn)).
    unfold set_net, add_events, add_event; simpl.
    rewrite Hn, <- app_assoc. reflexivity.
  - rewrite (bind_raise _ _ _ _ _
               (create_connection_unreachable HOST CONTROL_PORT _ _ w Hn)).
    unfold set_net, add_events, add_event; simpl.
    rewrite <- app_assoc. reflexivity.
  - rewrite (bind_return _ _ _ _ _
               (create_connection_accepted HOST CONTROL_PORT _ _ _ w Hn)).
    unfold sendall, print, bind, emit, raise; simpl.
    unfold set_net, add_events, add_event; simpl.
    rewrite <- !app_assoc. reflexivity.
  - rewrite (bind_return _ _ _ _ _
               (create_connection_accepted HOST CONTROL_PORT _ _ _ w Hn)).
    unfold sendall, print, bind, emit, ret; simpl.
    unfold set_net, add_events, add_event; simpl.
    rewrite <- !app_assoc. reflexivity.
Qed.

(** ** Where the client connects to *)

Lemma connects_receive_events h p n : connects (receive_events h p n) = [(h, p)].
Proof.
  unfold receive_events. destruct n as [|[e|sf rcv] n]; simpl; auto.
  rewrite connects_app, connects_recvs. reflexivity.
Qed.

Lemma only_contacts_round_trip cam command n :
  only_contacts cam (round_trip_events cam command n).
Proof.
  unfold only_contacts, round_trip_events, send_events. cbn [connects].
  constructor; [left; reflexivity|].
  rewrite connects_app.
  assert (H : connects match n with
                       | Accepted _ _ :: _ =>
                           [EvSendAll (encode_utf8 command); EvClose]
                       | _ => []
                       end = []) by (destruct n as [|[|] ?]; reflexivity).
  rewrite H. simpl. destruct (control_fault n); [constructor|].
  rewrite connects_receive_events. constructor; [right; reflexivity|constructor].
Qed.

Lemma only_contacts_app cam d1 d2 :
  only_contacts cam d1 -> only_contacts cam d2 -> only_contacts cam (d1 ++ d2).
Proof.
  unfold only_contacts. rewrite connects_app. intros H1 H2.
  apply Forall_app. split; assumption.
Qed.

Lemma only_contacts_quiet cam d :
  count is_network_event d = 0 -> only_contacts cam d.
Proof.
  unfold only_contacts, count. induction d as [|e d IH]; simpl; [constructor|].
  destruct e; simpl; intros H; try discriminate; auto.
Qed.

Lemma send_command_only_contacts command w :
  exists d,
    trace (snd (send_command command w)) = trace w ++ d
    /\ only_contacts (self w) d.
Proof.
  rewrite send_command_run. eexists. split; [reflexivity|].
  apply only_contacts_round_trip.
Qed.

Lemma trigger_only_contacts w :
  exists d,
    trace (snd (trigger w)) = trace w ++ d /\ only_contacts (self w) d.
Proof.
  rewrite trigger_run. eexists. split; [reflexivity|].
  apply (only_contacts_app _ [TRIGGERING]); [constructor|].
  apply only_contacts_round_trip.
Qed.

Lemma acquire_image_only_contacts w :
  exists d,
    trace (snd (acquire_image w)) = trace w ++ d /\ only_contacts (self w) d.
Proof.
  rewrite acquire_image_cases.
  destruct (trigger_only_contacts (add_event ACQUIRING w)) as (d1 & T1 & C1).
  pose proof (trigger_same_self (add_event ACQUIRING w)) as S1.
  destruct (trigger (add_event ACQUIRING w)) as [[[]|e1] w1]; cbn [fst snd] in *.
  2: { exists (ACQUIRING :: d1). split.
       - rewrite T1. simpl. rewrite <- app_assoc. reflexivity.
       - apply (only_contacts_app _ [ACQUIRING]); [constructor | exact C1]. }
  destruct (send_command_only_contacts ("getresultimage" ++ CRLF) w1)
    as (d2 & T2 & C2).
  pose proof (send_command_same_self ("getresultimage" ++ CRLF) w1) as S2.
  rewrite S1 in C2. change (self (add_event ACQUIRING w)) with (self w) in *.
  assert (C12 : only_contacts (self w) ((ACQUIRING :: d1) ++ d2)).
  { apply only_contacts_app; [|exact C2].
    apply (only_contacts_app _ [ACQUIRING]); [constructor | exact C1]. }
  destruct (send_command ("getresultimage" ++ CRLF) w1) as [[response|e2] w2];
    cbn [fst snd] in *.
  2: { exists ((ACQUIRING :: d1) ++ d2). split; [|exact C12].
       rewrite T2, T1. simpl. rewrite <- !app_assoc. reflexivity. }
  destruct (bytes_contains MARKER response).
  - destruct (_process_image_data_effects response w2)
      as (_ & _ & d3 & T3 & C3 & _).
    exists (((ACQUIRING :: d1) ++ d2) ++ d3). split.
    + rewrite T3, T2, T1. simpl. rewrite <- !app_assoc. reflexivity.
    + apply only_contacts_app; [exact C12 | apply only_contacts_quiet, C3].
  - exists (((ACQUIRING :: d1) ++ d2) ++ [NO_IMAGE]). split.
    + simpl. rewrite T2, T1. simpl. rewrite <- !app_assoc. reflexivity.
    + apply only_contacts_app; [exact C12 | constructor].
Qed.

(** X14. main connects only to the host given by [--host], on the port given
    by [--control-port] or [--results-port]: whatever the flags and whatever
    the peers answer, no other endpoint is ever contacted. *)
Theorem main_contacts_only_its_endpoint (args : Args) (w : World) :
  exists d,
    trace (snd (main args w)) = trace w ++ d
    /\ only_contacts (client_of args) d.
Proof.
  rewrite main_run. cbn [__init__ modify snd]. fold (client_of args).
  set (w0 := set_self (client_of args) w).
  assert (H : exists d,
             trace (snd (selected_operation args w0)) = trace w ++ d
             /\ only_contacts (client_of args) d).
  { unfold selected_operation.
    destruct (arg_trigger args); [apply (trigger_only_contacts w0)|].
    destruct (arg_acquire args); [apply (acquire_image_only_contacts w0)|].
    exists [EvPrint "Please specify either --trigger or --acquire"].
    split; [reflexivity | constructor]. }
  destruct H as (d & T & C).
  destruct (selected_operation args w0) as [[[]|e] w']; cbn [fst snd] in *.
  - exists d. split; assumption.
  - exists (d ++ [EvPrint (failure_report e)]). split.
    + simpl. rewrite T, <- app_assoc. reflexivity.
    + apply only_contacts_app; [exact C | constructor].
Qed.

(** ** What trigger sends, connection or not *)

(** X15. trigger hands the literal [TRIGGER\r\n] to a socket exactly when its
    control connection is established, once, and never hands over anything
    else; a trigger that returns has sent it. *)
Theorem trigger_payload (w : World) :
  exists d,
    trace (snd (trigger w)) = trace w ++ d
    /\ sent d = match net w with
                | Accepted _ _ :: _ => [TRIGGER_BYTES]
                | _ => []
                end
    /\ (fst (trigger w) = Return tt -> sent d = [TRIGGER_BYTES]).
Proof.
  rewrite trigger_run. eexists. split; [reflexivity|].
  cbn [sent fst]. rewrite sent_round_trip.
  change (encode_utf8 ("TRIGGER" ++ CRLF)) with TRIGGER_BYTES.
  split; [reflexivity|].
  destruct (send_outcome (self w) (net w)) as [r|e] eqn:O; [|discriminate].
  destruct (send_outcome_return _ _ _ O) as (rcv & rest & Hn).
  rewrite Hn. reflexivity.
Qed.

(** ** The files that the image step touches *)

Lemma file_events_app t u : file_events (t ++ u) = file_events t ++ file_events u.
Proof. apply filter_app. Qed.

Lemma no_file_event_file_events d :
  forallb not_file_event d = true -> file_events d = [].
Proof.
  unfold file_events. induction d as [|e d IH]; simpl; [reflexivity|].
  intros H. apply andb_true_iff in H as [He Hd].
  destruct e; simpl in *; try discriminate; auto.
Qed.

Lemma read_file_other path data other fs :
  other <> path -> read_file other ((path, data) :: fs) = read_file other fs.
Proof.
  intros Hne. cbn [read_file].
  destruct (String.eqb_spec path other) as [E|_]; [congruence | reflexivity].
Qed.

(** The image step opens no file but [./images/output_image_<timestamp>.jpg],
    writes to no other, and leaves every other file as it was. *)
Lemma _process_image_data_files response w :
  net (snd (_process_image_data response w)) = net w
  /\ self (snd (_process_image_data response w)) = self w
  /\ (forall other,
        other <> image_path (clock w) ->
        read_file other (files (snd (_process_image_data response w)))
        = read_file other (files w))
  /\ exists d,
       trace (snd (_process_image_data response w)) = trace w ++ d
       /\ count is_network_event d = 0
       /\ touches_only (image_path (clock w)) d.
Proof.
  unfold touches_only.
  destruct (nth_error (split_scan MARKER response 0 []) 1)
    as [base64_data|] eqn:Hp.
  2: { rewrite (_process_image_data_index_error response w Hp).
       repeat split. eexists. split; [reflexivity|]. split; [reflexivity|].
       left. reflexivity. }
  destruct (b64decode (MARKER ++ base64_data)) as [image_data|e] eqn:Hd.
  2: { rewrite (_process_image_data_decode_error response _ e w Hp Hd).
       repeat split. eexists. split; [reflexivity|]. split; [reflexivity|].
       left. reflexivity. }
  destruct (disk w (image_path (clock w))) as [fault|] eqn:Hk.
  - destruct (_process_image_data_any_fault response _ _ fault w Hp Hd Hk)
      as (e & He).
    rewrite He. split; [destruct fault; reflexivity|].
    split; [destruct fault; reflexivity|]. split.
    + intros other Hne. destruct fault; [reflexivity|].
      apply read_file_other, Hne.
    + exists [EvOpen (image_path (clock w)); PROCESSING_ERROR e].
      split; [destruct fault; simpl; rewrite <- app_assoc; reflexivity|].
      split; [reflexivity|]. right. left. reflexivity.
  - rewrite (_process_image_data_saved response _ image_data w Hp Hd Hk).
    split; [reflexivity|]. split; [reflexivity|]. split.
    + intros other Hne. apply read_file_other, Hne.
    + eexists. split; [reflexivity|]. split; [reflexivity|].
      right. right. exists image_data. reflexivity.
Qed.

(** X3. The image step never raises: for every response (with or without the
    marker, decodable or not) and every state of the disk it returns [None].
    It makes no network call and leaves the client's attributes alone.  The
    only file it opens is [./images/output_image_<timestamp>.jpg], at most
    once; it writes at most once, to that file and only after opening it;
    every other file keeps its content. *)
Theorem image_step_never_raises (response : bytes) (w : World) :
  fst (_process_image_data response w) = Return tt
  /\ net (snd (_process_image_data response w)) = net w
  /\ self (snd (_process_image_data response w)) = self w
  /\ (forall other,
        other <> image_path (clock w) ->
        read_file other (files (snd (_process_image_data response w)))
        = read_file other (files w))
  /\ exists d,
       trace (snd (_process_image_data response w)) = trace w ++ d
       /\ count is_network_event d = 0
       /\ touches_only (image_path (clock w)) d.
Proof.
  split; [apply _process_image_data_returns|].
  apply _process_image_data_files.
Qed.

(** ** The events of a round trip, one by one *)

Lemma forallb_round_trip P cam command n :
  P (EvLog INFO ("Sending command: " ++ strip command)) = true ->
  ok_exchange P (encode_utf8 command) ->
  forallb P (round_trip_events cam command n) = true.
Proof.
  intros Hl (Hs & Hc & Hr & Hx).
  assert (Hk : forall k, forallb P (repeat (EvRecv 4096) k) = true)
    by (induction k; simpl; rewrite ?Hr; auto).
  assert (Hrecv : forall h p m, forallb P (receive_events h p m) = true).
  { intros h p m. unfold receive_events.
    destruct m as [|[e|sf rcv] m]; simpl; rewrite Hc; auto.
    rewrite forallb_app, Hk. simpl. rewrite Hx. reflexivity. }
  unfold round_trip_events, send_events.
  change (forallb P (?e :: ?l)) with (P e && forallb P l).
  rewrite Hl. cbn [andb].
  change (forallb P ((?e :: ?l) ++ ?m)) with (P e && forallb P (l ++ m)).
  rewrite Hc. cbn [andb]. rewrite forallb_app.
  destruct n as [|[e|[e|] rcv] rest]; simpl; rewrite ?Hs, ?Hx; simpl;
    try reflexivity.
  apply Hrecv.
Qed.

Lemma file_events_round_trip cam command n :
  file_events (round_trip_events cam command n) = [].
Proof.
  apply no_file_event_file_events, forallb_round_trip;
    [reflexivity | repeat split; auto].
Qed.

(** X5. One call of acquire_image opens no file but
    [./images/output_image_<timestamp>.jpg], at most once, and writes at most
    once, to that file and only after opening it; every other file keeps its
    content.  When the call raises it has made no file access at all. *)
Theorem acquire_image_file_access (w : World) :
  exists d,
    trace (snd (acquire_image w)) = trace w ++ d
    /\ touches_only (image_path (clock w)) d
    /\ (forall other,
          other <> image_path (clock w) ->
          read_file other (files (snd (acquire_image w)))
          = read_file other (files w))
    /\ (forall e,
          fst (acquire_image w) = Raise e ->
          file_events d = [] /\ files (snd (acquire_image w)) = files w).
Proof.
  rewrite acquire_image_cases, trigger_run.
  set (w0 := add_event ACQUIRING w).
  set (d1 := TRIGGERING
             :: round_trip_events (self w0) ("TRIGGER" ++ CRLF) (net w0)).
  assert (F1 : file_events (ACQUIRING :: d1) = [])
    by (unfold d1; cbn [file_events filter is_file_event];
        apply file_events_round_trip).
  destruct (send_outcome (self w0) (net w0)) as [r1|e1].
  2: { exists (ACQUIRING :: d1). cbn [fst snd]. split.
       - cbn [trace set_net add_events]. unfold w0. cbn [trace add_event].
         rewrite <- app_assoc. reflexivity.
       - split; [left; exact F1|]. split; [reflexivity|].
         intros e _. split; [exact F1 | reflexivity]. }
  rewrite send_command_run.
  set (w1 := set_net (net_after (net w0)) (add_events d1 w0)).
  set (d2 := round_trip_events (self w1) ("getresultimage" ++ CRLF) (net w1)).
  assert (F2 : file_events ((ACQUIRING :: d1) ++ d2) = [])
    by (rewrite file_events_app, F1; apply file_events_round_trip).
  set (w2 := set_net (net_after (net w1)) (add_events d2 w1)).
  assert (T2 : trace w2 = trace w ++ (ACQUIRING :: d1) ++ d2).
  { unfold w2. cbn [trace set_net add_events]. unfold w1.
    cbn [trace set_net add_events]. unfold w0. cbn [trace add_event].
    rewrite <- !app_assoc. reflexivity. }
  destruct (send_outcome (self w1) (net w1)) as [response|e2].
  2: { exists ((ACQUIRING :: d1) ++ d2). cbn [fst snd].
       split; [exact T2|]. split; [left; exact F2|]. split; [reflexivity|].
       intros e _. split; [exact F2 | reflexivity]. }
  destruct (bytes_contains MARKER response).
  - destruct (_process_image_data_files response w2)
      as (_ & _ & RF & d3 & T3 & _ & TO).
    change (clock w2) with (clock w) in *. change (files w2) with (files w) in *.
    exists (((ACQUIRING :: d1) ++ d2) ++ d3). split.
    + rewrite T3, T2, <- !app_assoc. reflexivity.
    + split; [|split; [exact RF|]].
      * unfold touches_only in *. rewrite file_events_app, F2. exact TO.
      * intros e He. rewrite _process_image_data_returns in He. discriminate.
  - exists (((ACQUIRING :: d1) ++ d2) ++ [NO_IMAGE]). cbn [fst snd]. split.
    + change (trace (add_event NO_IMAGE w2)) with (trace w2 ++ [NO_IMAGE]).
      rewrite T2, <- !app_assoc. reflexivity.
    + split; [left; rewrite file_events_app, F2; reflexivity|].
      split; [reflexivity | discriminate].
Qed.

(** X6. acquire_image issues its commands in a fixed order, and the query only
    behind a trigger that returned.  What it hands to its sockets is the
    literal [TRIGGER\r\n] when the trigger's control connection is
    established, followed, only when the trigger round trip has returned, by
    [getresultimage\r\n] when the query's control connection is established;
    nothing else is sent, and a call that returns has sent exactly these
    two. *)
Theorem acquire_image_command_order (w : World) :
  exists d,
    trace (snd (acquire_image w)) = trace w ++ d
    /\ sent d
       = match net w with
         | Accepted _ _ :: _ => [TRIGGER_BYTES]
         | _ => []
         end
         ++ match fst (trigger (add_event ACQUIRING w)) with
            | Return _ =>
                match net (after_trigger w) with
                | Accepted _ _ :: _ => [GETRESULTIMAGE_BYTES]
                | _ => []
                end
            | Raise _ => []
            end
    /\ (sent d = [] \/ sent d = [TRIGGER_BYTES]
        \/ sent d = [TRIGGER_BYTES; GETRESULTIMAGE_BYTES])
    /\ (fst (acquire_image w) = Return tt ->
        sent d = [TRIGGER_BYTES; GETRESULTIMAGE_BYTES]).
Proof.
  unfold after_trigger. rewrite acquire_image_cases, trigger_run.
  set (w0 := add_event ACQUIRING w).
  set (d1 := TRIGGERING :: round_trip_events (self w0) ("TRIGGER" ++ CRLF) (net w0)).
  assert (S1 : sent d1 = match net w0 with
                         | Accepted _ _ :: _ => [TRIGGER_BYTES]
                         | _ => []
                         end).
  { unfold d1. cbn [sent]. apply sent_round_trip. }
  change (net w0) with (net w) in S1.
  cbn [fst snd].
  destruct (send_outcome (self w0) (net w0)) as [r1|e1] eqn:O1.
  2: { exists (ACQUIRING :: d1). cbn [fst snd]. split.
       - cbn [trace set_net add_events]. unfold w0. cbn [trace add_event].
         rewrite <- app_assoc. reflexivity.
       - cbn [sent]. rewrite S1, app_nil_r. split; [reflexivity|].
         split; [|discriminate].
         destruct (net w) as [|[|] ?]; auto. }
  destruct (send_outcome_return _ _ _ O1) as (rcv & rest & Hn).
  change (net w0) with (net w) in Hn. rewrite Hn in S1. rewrite Hn.
  cbn [fst snd]. rewrite send_command_run.
  set (w1 := set_net (net_after (net w0)) (add_events d1 w0)).
  set (d2 := round_trip_events (self w1) ("getresultimage" ++ CRLF) (net w1)).
  assert (S2 : sent d2 = match net w1 with
                         | Accepted _ _ :: _ => [GETRESULTIMAGE_BYTES]
                         | _ => []
                         end) by apply sent_round_trip.
  set (w2 := set_net (net_after (net w1)) (add_events d2 w1)).
  assert (T2 : trace w2 = trace w ++ (ACQUIRING :: d1) ++ d2).
  { unfold w2. cbn [trace set_net add_events]. unfold w1.
    cbn [trace set_net add_events]. unfold w0. cbn [trace add_event].
    rewrite <- !app_assoc. reflexivity. }
  destruct (send_outcome (self w1) (net w1)) as [response|e2] eqn:O2.
  2: { exists ((ACQUIRING :: d1) ++ d2). cbn [fst snd].
       split; [exact T2|]. rewrite sent_app. cbn [sent]. rewrite S1, S2.
       split; [reflexivity|]. split; [|discriminate].
       destruct (net w1) as [|[|] ?]; auto. }
  destruct (send_outcome_return _ _ _ O2) as (rcv2 & rest2 & Hn2).
  rewrite Hn2 in S2. rewrite Hn2.
  destruct (bytes_contains MARKER response).
  - destruct (_process_image_data_effects response w2)
      as (_ & _ & d3 & T3 & C3 & _).
    exists ((ACQUIRING :: d1) ++ d2 ++ d3). split.
    + rewrite T3, T2, <- !app_assoc. reflexivity.
    + rewrite !sent_app. cbn [sent].
      rewrite S1, S2, (no_network_event_sent d3 C3). simpl. auto.
  - exists ((ACQUIRING :: d1) ++ d2 ++ [NO_IMAGE]). cbn [fst snd]. split.
    + change (trace (add_event NO_IMAGE w2)) with (trace w2 ++ [NO_IMAGE]).
      rewrite T2, <- !app_assoc. reflexivity.
    + rewrite !sent_app. cbn [sent]. rewrite S1, S2. simpl. auto.
Qed.

(** ** main: the two flags together *)

Lemma trigger_run_event_report e : trigger_run_event (EvPrint (failure_report e)) = true.
Proof.
  unfold failure_report.
  destruct (issubclass (exn_class e) ConnectionError); reflexivity.
Qed.

(** C9. With both [--trigger] and [--acquire] given, main accepts the flags
    and executes trigger, on the client built from the arguments: its run is
    the run of trigger, followed by the one-line report when trigger raises,
    and it is the run of main with [--trigger] alone.  What it adds to the
    trace starts with trigger's log line and holds the [TRIGGER\r\n] command
    when the control connection is established; acquire_image is not called
    (its log line, the [getresultimage] command and any file access are
    absent), and the usage hint is not printed. *)
Theorem main_trigger_takes_precedence
    (h : string) (cport rport : Z) (w : World) :
  main (mkArgs h cport rport true true) w
  = (Return tt,
     match trigger (set_self (mkCameraControl h cport rport) w) with
     | (Return _, w') => w'
     | (Raise e, w') => add_event (EvPrint (failure_report e)) w'
     end)
  /\ main (mkArgs h cport rport true true) w
     = main (mkArgs h cport rport true false) w
  /\ exists d,
       trace (snd (main (mkArgs h cport rport true true) w))
       = trace w ++ TRIGGERING :: d
       /\ sent (TRIGGERING :: d)
          = match net w with
            | Accepted _ _ :: _ => [TRIGGER_BYTES]
            | _ => []
            end
       /\ ~ In ACQUIRING (TRIGGERING :: d)
       /\ ~ In (EvSendAll GETRESULTIMAGE_BYTES) (TRIGGERING :: d)
       /\ forallb not_file_event (TRIGGERING :: d) = true
       /\ ~ In USAGE_HINT (TRIGGERING :: d).
Proof.
  assert (Hrun : main (mkArgs h cport rport true true) w
                 = (Return tt,
                    match trigger (set_self (mkCameraControl h cport rport) w)
                    with
                    | (Return _, w') => w'
                    | (Raise e, w') => add_event (EvPrint (failure_report e)) w'
                    end)).
  { rewrite main_run. unfold selected_operation.
    cbn [arg_trigger arg_host arg_control_port arg_results_port __init__
         modify snd].
    destruct (trigger (set_self (mkCameraControl h cport rport) w))
      as [[[]|e] w']; reflexivity. }
  split; [exact Hrun|]. split; [reflexivity|].
  rewrite Hrun. cbn [snd]. rewrite trigger_run.
  set (w0 := set_self (mkCameraControl h cport rport) w).
  set (rt := round_trip_events (self w0) ("TRIGGER" ++ CRLF) (net w0)).
  assert (Hrt : forallb trigger_run_event rt = true)
    by (apply forallb_round_trip; [reflexivity | repeat split; auto]).
  assert (Hs : sent rt = match net w with
                         | Accepted _ _ :: _ => [TRIGGER_BYTES]
                         | _ => []
                         end) by apply sent_round_trip.
  assert (H : exists d,
             trace match send_outcome (self w0) (net w0) with
                   | Return _ =>
                       set_net (net_after (net w0))
                         (add_events (TRIGGERING :: rt) w0)
                   | Raise e =>
                       add_event (EvPrint (failure_report e))
                         (set_net (net_after (net w0))
                            (add_events (TRIGGERING :: rt) w0))
                   end = trace w ++ TRIGGERING :: d
             /\ sent d = sent rt
             /\ forallb trigger_run_event d = true).
  { destruct (send_outcome (self w0) (net w0)) as [r|e].
    - exists rt. repeat split; assumption.
    - exists (rt ++ [EvPrint (failure_report e)]). split.
      + cbn [trace set_net add_events add_event]. unfold w0.
        cbn [trace set_self]. rewrite <- app_assoc. reflexivity.
      + split.
        * rewrite sent_app. simpl. apply app_nil_r.
        * rewrite forallb_app, Hrt. simpl.
          rewrite trigger_run_event_report. reflexivity. }
  destruct H as (d & T & S & P).
  exists d. split.
  - destruct (send_outcome (self w0) (net w0)); exact T.
  - cbn [sent]. rewrite S, Hs. split; [reflexivity|].
    assert (Pall : forall e, In e (TRIGGERING :: d) -> trigger_run_event e = true).
    { intros e [<-|Hin]; [reflexivity|].
      rewrite forallb_forall in P. apply P, Hin. }
    split; [|split; [|split]].
    + intros Hin. apply Pall in Hin. discriminate.
    + intros Hin. apply Pall in Hin. discriminate.
    + apply forallb_forall. intros e Hin. apply Pall in Hin.
      destruct e; simpl in *; auto; discriminate.
    + intros Hin. apply Pall in Hin. discriminate.
Qed.
